(** * FileManagerClient (client.py): upload / download polling loops

    A shallow embedding of [FileManagerClient] and of the two polling loops
    [_manage_input] and [_manage_output].

    - Paths of the input folder are represented by their base name
      ([file.name]); every path the client builds is [input / name],
      [input_archive / name] or [output / key].
    - The history lists ([upload_history], [download_history]) are Python
      lists, hence [list string]: order and repetitions are kept.
    - A bucket is the list of its keys in the order S3 lists them, and a
      listing is its first page.  A key is downloaded to [output / key],
      which for a key with slashes lies in a folder of the output folder.
    - The entries of a folder are regular files and folders; links, FIFOs,
      sockets and devices are outside the model.  The file system is the
      POSIX one: [os.rename] replaces a file by a file and an empty folder
      by a folder, and raises on every other destination that exists.
    - Every call that leaves the interpreter (the file system, S3, the sound
      player) is an [Op].  A call either returns or raises; a raised
      exception is never caught inside the class, so it unwinds the method
      that made the call.  A call raises when the state forces it (a missing
      file, a folder handed to the S3 upload, a key whose folder is missing
      under the output folder, a rename the file system refuses) or when
      the oracle tape carried in the world says so (network and permission
      errors, a sound that cannot be played, anything that depends on what
      the state does not record).  A call that raises leaves the persistent
      state as it found it.
    - Each call is appended to a trace together with its outcome and the
      persistent state it leaves behind. *)

From Stdlib Require Import String Ascii List Bool Arith Lia.
Import ListNotations.
Local Open Scope string_scope.
Local Open Scope list_scope.

(** ** Names *)

(** [c in name] for a one-character string [c]. *)
Fixpoint contains (c : ascii) (s : string) : bool :=
  match s with
  | EmptyString => false
  | String a r => if Ascii.eqb a c then true else contains c r
  end.

(** [name.replace(old, new)] for one-character strings [old] and [new]. *)
Fixpoint replace (old new : ascii) (s : string) : string :=
  match s with
  | EmptyString => EmptyString
  | String a r => String (if Ascii.eqb a old then new else a) (replace old new r)
  end.

Definition space : ascii := " "%char.
Definition underscore : ascii := "_"%char.
Definition slash : ascii := "/"%char.

(** [x in l] for a list of strings. *)
Definition mem (x : string) (l : list string) : bool :=
  existsb (String.eqb x) l.

(** ** Folders *)

Inductive Kind : Type :=
| Regular                      (* a regular file *)
| Directory (empty : bool).    (* a folder, and whether it holds nothing *)

(** A folder: its entries in the order a scan yields them. *)
Definition Dir : Type := list (string * Kind).

Definition names (d : Dir) : list string := map fst d.

Fixpoint dir_lookup (n : string) (d : Dir) : option Kind :=
  match d with
  | [] => None
  | (m, k) :: r => if String.eqb n m then Some k else dir_lookup n r
  end.

Fixpoint dir_remove (n : string) (d : Dir) : Dir :=
  match d with
  | [] => []
  | (m, k) :: r => if String.eqb n m then dir_remove n r else (m, k) :: dir_remove n r
  end.

(** Creating [n], replacing an entry of that name. *)
Definition dir_put (n : string) (k : Kind) (d : Dir) : Dir :=
  dir_remove n d ++ [(n, k)].

(** Whether [os.rename] moves an entry of kind [k] to a destination that
    holds [dst]: a file replaces a file, a folder replaces an empty folder,
    and every other destination that exists makes the call raise. *)
Definition can_replace (k : Kind) (dst : option Kind) : bool :=
  match dst with
  | None => true
  | Some Regular => match k with Regular => true | Directory _ => false end
  | Some (Directory e) => match k with Regular => false | Directory _ => e end
  end.

(** ** Keys as paths *)

(** The parts of a key between its slashes. *)
Fixpoint split_slash (s : string) : list string :=
  match s with
  | EmptyString => [EmptyString]
  | String a r =>
      if Ascii.eqb a slash then EmptyString :: split_slash r
      else match split_slash r with
           | [] => [String a EmptyString]
           | p :: ps => String a p :: ps
           end
  end.

(** Where [self.output / key] lies.  The join drops the empty parts and
    the ["."] parts of the key and keeps [".."]; an absolute key replaces
    the whole path. *)
Inductive Place : Type :=
| Itself                       (* the output folder itself *)
| Here (name : string)         (* [output / name] *)
| Below (folder : string)      (* somewhere inside [output / folder] *)
| Outside.                     (* absolute, or through [".."] *)

Definition place (key : string) : Place :=
  let ps := filter (fun p => negb (p =? "") && negb (p =? "."))
                   (split_slash key) in
  if String.prefix "/" key || existsb (String.eqb "..") ps then Outside
  else match ps with
       | [] => Itself
       | [n] => Here n
       | d :: _ => Below d
       end.

(** Whether a file can be written at the place of [key], given the folders
    the output folder holds: not onto the output folder or a folder of it,
    and not into a folder that is not there.  What lies deeper inside a
    folder, or outside the output folder, the state does not record. *)
Definition lands (key : string) (folders : list string) : bool :=
  match place key with
  | Itself => false
  | Here n => negb (mem n folders)
  | Below d => mem d folders
  | Outside => true
  end.

(** ** Listings of a bucket *)

(** [list_objects] answers with the first keys of the bucket, at most this
    many; the client asks for no further page. *)
Definition max_keys : nat := 1000.

Definition first_page (b : list string) : list string := firstn max_keys b.
Arguments first_page : simpl never.

(** S3 lists the keys of a bucket in the byte order of their names: where
    a new key comes to stand in a listing. *)
Fixpoint insert_key (key : string) (b : list string) : list string :=
  match b with
  | [] => [key]
  | k :: r => if String.ltb key k then key :: b else k :: insert_key key r
  end.

(** ** Persistent state: the folders, the two buckets, the two history files *)

Inductive JsonFile : Type :=
| Missing                          (* no such file *)
| Unparseable                      (* truncated or otherwise not JSON *)
| Content (l : list string).       (* a JSON array of strings *)

Inductive Ledger : Type := UploadLedger | DownloadLedger.

Record Store : Type := mkStore {
  input_dir : Dir;                 (* self.input *)
  archive_dir : Dir;               (* self.input_archive *)
  output_dir : list string;        (* the keys k with a file at self.output / k *)
  output_folders : list string;    (* the folders that self.output holds *)
  upload_bucket : list string;     (* keys of self.upload_bucket *)
  download_bucket : list string;   (* keys of self.download_bucket, as listed *)
  upload_fp : JsonFile;            (* self.upload_fp *)
  download_fp : JsonFile           (* self.download_fp *)
}.

Definition ledger_file (l : Ledger) (s : Store) : JsonFile :=
  match l with UploadLedger => upload_fp s | DownloadLedger => download_fp s end.

Definition set_ledger_file (l : Ledger) (f : JsonFile) (s : Store) : Store :=
  match l with
  | UploadLedger =>
      mkStore (input_dir s) (archive_dir s) (output_dir s) (output_folders s)
              (upload_bucket s) (download_bucket s) f (download_fp s)
  | DownloadLedger =>
      mkStore (input_dir s) (archive_dir s) (output_dir s) (output_folders s)
              (upload_bucket s) (download_bucket s) (upload_fp s) f
  end.

(** ** Calls *)

Inductive Op : Type :=
| Glob                                   (* self.input.glob("*") *)
| OsRename (src dst : string)            (* os.rename(input/src, input/dst) *)
| OsStat (name : string)                 (* os.stat(input/name) *)
| S3Upload (name key : string)           (* s3.upload_file(input/name, upload_bucket, key) *)
| OpenW (l : Ledger)                     (* open(fp, "w") *)
| JsonDump (l : Ledger) (h : list string)  (* json.dump(history, f) and close *)
| OsArchive (name : string)              (* os.rename(input/name, input_archive/name) *)
| S3List                                 (* s3.list_objects(download_bucket) *)
| S3Download (key : string)              (* s3.download_file(download_bucket, key, output/key) *)
| Playsound                              (* playsound("notify.mp3") *)
| JsonLoad (l : Ledger).                 (* json.load(open(fp)) *)

(** The effect of a call that returns; [None] when the state itself makes
    the call raise.  Where the outcome hangs on what the state does not
    record (what lies inside a folder of the output folder, or outside
    it), the call is one that can return, and the tape decides. *)
Definition apply_op (op : Op) (s : Store) : option Store :=
  match op with
  | Glob | S3List | Playsound => Some s
  | OsRename src dst =>
      match dir_lookup src (input_dir s) with
      | Some k =>
          if can_replace k (dir_lookup dst (input_dir s))
          then Some (mkStore (dir_put dst k (dir_remove src (input_dir s)))
                             (archive_dir s) (output_dir s) (output_folders s)
                             (upload_bucket s) (download_bucket s)
                             (upload_fp s) (download_fp s))
          else None
      | None => None
      end
  | OsStat n =>
      match dir_lookup n (input_dir s) with Some _ => Some s | None => None end
  | S3Upload n key =>
      (* the upload opens [n] for reading, which raises on a folder *)
      match dir_lookup n (input_dir s) with
      | Some k =>
          match k with
          | Regular =>
              Some (mkStore (input_dir s) (archive_dir s) (output_dir s)
                            (output_folders s)
                            (if mem key (upload_bucket s) then upload_bucket s
                             else upload_bucket s ++ [key])
                            (download_bucket s) (upload_fp s) (download_fp s))
          | Directory _ => None
          end
      | None => None
      end
  | OpenW l => Some (set_ledger_file l Unparseable s)
  | JsonDump l h => Some (set_ledger_file l (Content h) s)
  | OsArchive n =>
      match dir_lookup n (input_dir s) with
      | Some k =>
          if can_replace k (dir_lookup n (archive_dir s))
          then Some (mkStore (dir_remove n (input_dir s))
                             (dir_put n k (archive_dir s)) (output_dir s)
                             (output_folders s)
                             (upload_bucket s) (download_bucket s)
                             (upload_fp s) (download_fp s))
          else None
      | None => None
      end
  | S3Download key =>
      if mem key (download_bucket s)
      then if lands key (output_folders s)
           then Some (mkStore (input_dir s) (archive_dir s)
                              (if mem key (output_dir s) then output_dir s
                               else output_dir s ++ [key])
                              (output_folders s)
                              (upload_bucket s) (download_bucket s)
                              (upload_fp s) (download_fp s))
           else None
      else None
  | JsonLoad l =>
      match ledger_file l s with Content _ => Some s | _ => None end
  end.

(** ** The world of one client process *)

Record Event : Type := mkEvent {
  ev_op : Op;
  ev_ok : bool;                    (* returned ([true]) or raised ([false]) *)
  ev_store : Store                 (* persistent state after the call *)
}.

Record World : Type := mkWorld {
  store : Store;
  upload_history : list string;    (* self.upload_history *)
  download_history : list string;  (* self.download_history *)
  running : bool;                  (* self.running *)
  sleep_interval : nat;            (* self.sleep_interval, in seconds *)
  oracle : list bool;              (* [true]: the next call raises *)
  trace : list Event
}.

(** ** Methods: state passing with exceptions *)

Inductive Res (A : Type) : Type :=
| Ret (a : A) (w : World)          (* normal return *)
| Raise (w : World).               (* an exception unwinds the method *)
Arguments Ret {A} a w.
Arguments Raise {A} w.

Definition M (A : Type) : Type := World -> Res A.

Definition ret {A} (a : A) : M A := fun w => Ret a w.

Definition bind {A B} (m : M A) (f : A -> M B) : M B :=
  fun w => match m w with
           | Ret a w' => f a w'
           | Raise w' => Raise w'
           end.

Notation "x <- m ;; k" := (bind m (fun x => k))
  (at level 61, m at next level, right associativity).
Notation "m ;; k" := (bind m (fun _ => k))
  (at level 61, right associativity).

Definition world_of {A} (r : Res A) : World :=
  match r with Ret _ w => w | Raise w => w end.

Definition returned {A} (r : Res A) : bool :=
  match r with Ret _ _ => true | Raise _ => false end.

(** The next oracle entry; an exhausted tape raises nothing. *)
Definition next_fault (w : World) : bool :=
  match oracle w with [] => false | b :: _ => b end.

Definition log (op : Op) (ok : bool) (s : Store) (w : World) : World :=
  mkWorld s (upload_history w) (download_history w) (running w)
          (sleep_interval w) (tl (oracle w))
          (trace w ++ [mkEvent op ok s]).

(** One call: it raises when the oracle says so or the state forces it,
    and then leaves the persistent state as it was. *)
Definition call (op : Op) : M unit := fun w =>
  match (if next_fault w then None else apply_op op (store w)) with
  | Some s' => Ret tt (log op true s' w)
  | None => Raise (log op false (store w) w)
  end.

Definition read {A} (f : World -> A) : M A := fun w => Ret (f w) w.

(** [self.upload_history.append(x)] *)
Definition upload_history_append (x : string) : M unit := fun w =>
  Ret tt (mkWorld (store w) (upload_history w ++ [x]) (download_history w)
                  (running w) (sleep_interval w) (oracle w) (trace w)).

(** [self.download_history.append(x)] *)
Definition download_history_append (x : string) : M unit := fun w =>
  Ret tt (mkWorld (store w) (upload_history w) (download_history w ++ [x])
                  (running w) (sleep_interval w) (oracle w) (trace w)).

(** *** Upload side *)

(** The name a file is uploaded and archived under (lines 89-92). *)
Definition target (file : string) : string :=
  if contains space file then replace space underscore file else file.

(** [_check_input_files] (lines 65-72): every entry of the input folder. *)
Definition _check_input_files : M (list string) :=
  call Glob ;;
  read (fun w => names (input_dir (store w))).

(** [_upload_file] (lines 83-105). *)
Definition _upload_file (file : string) : M unit :=
  file <- (if contains space file
           then call (OsRename file (replace space underscore file)) ;;
                ret (replace space underscore file)
           else ret file) ;;
  call (OsStat file) ;;
  call (S3Upload file file) ;;
  upload_history_append file ;;
  call (OpenW UploadLedger) ;;
  h <- read upload_history ;;
  call (JsonDump UploadLedger h) ;;
  call (OsArchive file).

(** [_upload_files] (lines 74-81). *)
Fixpoint _upload_files (files : list string) : M unit :=
  match files with
  | [] => ret tt
  | file :: rest => _upload_file file ;; _upload_files rest
  end.

(** The body of the [while] of [_manage_input] up to the sleep (lines 109-111). *)
Definition _manage_input_body : M unit :=
  files <- _check_input_files ;;
  match files with
  | [] => ret tt
  | _ :: _ => _upload_files files
  end.

(** *** Download side *)

(** [_list_s3_files] (lines 125-131): the keys of the one answer of
    [list_objects]. *)
Definition _list_s3_files : M (list string) :=
  call S3List ;;
  read (fun w => first_page (download_bucket (store w))).

(** [_download_file] (lines 133-139). *)
Definition _download_file (file : string) : M unit :=
  call (S3Download file) ;;
  call Playsound ;;
  download_history_append file ;;
  call (OpenW DownloadLedger) ;;
  h <- read download_history ;;
  call (JsonDump DownloadLedger h).

(** The [for] of [_check_for_downloads] (lines 121-123). *)
Fixpoint _check_for_downloads_for (files : list string) : M unit :=
  match files with
  | [] => ret tt
  | file :: rest =>
      h <- read download_history ;;
      (if mem file h then ret tt else _download_file file) ;;
      _check_for_downloads_for rest
  end.

(** [_check_for_downloads] (lines 119-123). *)
Definition _check_for_downloads : M unit :=
  files <- _list_s3_files ;;
  _check_for_downloads_for files.

(** *** Start of a process *)

Definition set_upload_history (h : list string) : M unit := fun w =>
  Ret tt (mkWorld (store w) h (download_history w) (running w)
                  (sleep_interval w) (oracle w) (trace w)).

Definition set_download_history (h : list string) : M unit := fun w =>
  Ret tt (mkWorld (store w) (upload_history w) h (running w)
                  (sleep_interval w) (oracle w) (trace w)).

Definition set_sleep_interval (n : nat) : M unit := fun w =>
  Ret tt (mkWorld (store w) (upload_history w) (download_history w) (running w)
                  n (oracle w) (trace w)).

Definition set_running (b : bool) : M unit := fun w =>
  Ret tt (mkWorld (store w) (upload_history w) (download_history w) b
                  (sleep_interval w) (oracle w) (trace w)).

(** Lines 52-59: an absent history file is created holding [[]]. *)
Definition create_if_missing (l : Ledger) : M unit :=
  f <- read (fun w => ledger_file l (store w)) ;;
  match f with
  | Missing => call (OpenW l) ;; call (JsonDump l [])
  | _ => ret tt
  end.

(** [json.load(open(fp))] (lines 60-61). *)
Definition json_load (l : Ledger) : M (list string) :=
  call (JsonLoad l) ;;
  read (fun w => match ledger_file l (store w) with Content h => h | _ => [] end).

(** [__init__] from line 50 on; [kw] is the [sleep_interval] keyword
    argument when given. *)
Definition __init__ (kw : option nat) : M unit :=
  create_if_missing UploadLedger ;;
  create_if_missing DownloadLedger ;;
  up <- json_load UploadLedger ;;
  set_upload_history up ;;
  down <- json_load DownloadLedger ;;
  set_download_history down ;;
  set_sleep_interval (match kw with Some n => n | None => 10 end) ;;
  set_running true.

(** The memory of a process before [__init__] has run. *)
Definition boot (st : Store) (tape : list bool) : World :=
  mkWorld st [] [] false 0 tape [].

(** ** The two loops as threads

    [_manage_input] and [_manage_output] run in two threads that share the
    client object.  The upload side reads and writes the input folder, the
    archive, the upload bucket and the upload history; the download side
    the download bucket, the output folder and the download history; the
    only field both read is [running], and neither writes it.  A thread is
    first followed on its own, as a machine that steps through its
    [while], with what the rest of the world does interleaved between its
    steps: the signal handler clearing [running], entries put in the input
    folder, objects put in the bucket, and the process being killed and
    started again.  What such a machine says of a loop concerns the side
    of that loop; the process with both threads follows below.

    A pass of the loop body is one step (it suspends nowhere, and what
    arrives during a pass is seen by the next scan); [time.sleep(n)] is
    [n] steps of one second each, during which the thread reads nothing. *)

Inductive Loop : Type := UploadLoop | DownloadLoop.

(** What one pass of the [while] does before it sleeps:
    lines 109-111 of [_manage_input], line 116 of [_manage_output]. *)
Definition loop_body (l : Loop) : M unit :=
  match l with
  | UploadLoop => _manage_input_body
  | DownloadLoop => _check_for_downloads
  end.

Inductive Pc : Type :=
| AtWhile                  (* about to evaluate [while self.running] *)
| InBody                   (* the test was true; the pass is about to run *)
| Sleeping (left : nat)    (* inside [time.sleep], [left] seconds to go *)
| Returned                 (* the test was false: the method returned *)
| Died.                    (* an exception left the method, or no thread *)

Definition State : Type := (World * Pc)%type.

(** One step of the thread running [_manage_input] or [_manage_output]. *)
Definition thread_step (l : Loop) (s : State) : State :=
  let (w, pc) := s in
  match pc with
  | AtWhile => if running w then (w, InBody) else (w, Returned)
  | InBody =>
      match loop_body l w with
      | Ret _ w' => (w', Sleeping (sleep_interval w'))
      | Raise w' => (w', Died)
      end
  | Sleeping (S k) => (w, Sleeping k)
  | Sleeping 0 => (w, AtWhile)
  | Returned => (w, Returned)
  | Died => (w, Died)
  end.

(** What happens around the thread. *)
Inductive Action : Type :=
| Step                                   (* the thread advances *)
| Signal                                 (* the handler runs [client.running = False] *)
| Arrive (name : string) (k : Kind)      (* an entry is put in the input folder *)
| Publish (key : string)                 (* an object appears in the download bucket *)
| Restart (kw : option nat) (tape : list bool).  (* the process is started anew *)

Definition with_store (st : Store) (w : World) : World :=
  mkWorld st (upload_history w) (download_history w) (running w)
          (sleep_interval w) (oracle w) (trace w).

Definition act (l : Loop) (a : Action) (s : State) : State :=
  match a with
  | Step => thread_step l s
  | Signal => (world_of (set_running false (fst s)), snd s)
  | Arrive n k =>
      let st := store (fst s) in
      (with_store (mkStore (dir_put n k (input_dir st)) (archive_dir st)
                           (output_dir st) (output_folders st) (upload_bucket st)
                           (download_bucket st) (upload_fp st) (download_fp st))
                  (fst s), snd s)
  | Publish key =>
      let st := store (fst s) in
      (with_store (mkStore (input_dir st) (archive_dir st) (output_dir st)
                           (output_folders st) (upload_bucket st)
                           (if mem key (download_bucket st) then download_bucket st
                            else insert_key key (download_bucket st))
                           (upload_fp st) (download_fp st))
                  (fst s), snd s)
  | Restart kw tape =>
      match __init__ kw (boot (store (fst s)) tape) with
      | Ret _ w' => (w', AtWhile)
      | Raise w' => (w', Died)
      end
  end.

Fixpoint exec (l : Loop) (sched : list Action) (s : State) : State :=
  match sched with
  | [] => s
  | a :: rest => exec l rest (act l a s)
  end.

(** A machine on which no client process runs. *)
Definition off (st : Store) : State := (boot st [], Died).

(** *** The process: both threads over the one client

    Lines 155-168 build the client and start [_manage_input] and
    [_manage_output] as two threads that share it.  A process is the shared
    world and the place of each thread; the threads take turns, a turn
    being one step of [thread_step], and signals, arrivals, publications
    and restarts happen between the turns. *)

Record Process : Type := mkProcess {
  shared : World;                (* the client and the state behind it *)
  input_thread : Pc;             (* the thread of [_manage_input] *)
  output_thread : Pc             (* the thread of [_manage_output] *)
}.

Definition thread_of (l : Loop) (p : Process) : Pc :=
  match l with
  | UploadLoop => input_thread p
  | DownloadLoop => output_thread p
  end.

Inductive Move : Type :=
| Turn (l : Loop)        (* the thread of loop [l] takes its next step *)
| Happen (a : Action).   (* a signal, an arrival, a publication, a restart *)

Definition move (m : Move) (p : Process) : Process :=
  match m with
  | Turn UploadLoop =>
      let s := thread_step UploadLoop (shared p, input_thread p) in
      mkProcess (fst s) (snd s) (output_thread p)
  | Turn DownloadLoop =>
      let s := thread_step DownloadLoop (shared p, output_thread p) in
      mkProcess (fst s) (input_thread p) (snd s)
  | Happen Step => p             (* a step is the turn of one thread *)
  | Happen (Restart kw tape) =>
      (* the client is built, then both threads are started; when
         [__init__] raises no thread is *)
      let s := act UploadLoop (Restart kw tape) (shared p, Died) in
      mkProcess (fst s) (snd s) (snd s)
  | Happen a =>
      mkProcess (fst (act UploadLoop a (shared p, Died)))
                (input_thread p) (output_thread p)
  end.

Fixpoint run (ms : list Move) (p : Process) : Process :=
  match ms with
  | [] => p
  | m :: rest => run rest (move m p)
  end.

(** A machine on which no client process runs. *)
Definition halted (st : Store) : Process := mkProcess (boot st []) Died Died.

Definition is_restart (a : Action) : bool :=
  match a with Restart _ _ => true | _ => false end.

Definition stopped (pc : Pc) : bool :=
  match pc with Returned | Died => true | _ => false end.

(** * Vocabulary of the statements *)

(** ** Traces *)

Definition ops (t : list Event) : list Op := map ev_op t.

(** The events a run added to the trace. *)
Definition added (w w' : World) (evs : list Event) : Prop :=
  trace w' = trace w ++ evs.

(** [d] occurs before [e] in [t]. *)
Definition before (t : list Event) (d e : Event) : Prop :=
  exists t1 t2 t3, t = t1 ++ d :: t2 ++ e :: t3.

(** The keys of the download calls of a trace, in order. *)
Fixpoint downloads (t : list Event) : list string :=
  match t with
  | [] => []
  | e :: r =>
      match ev_op e with
      | S3Download k => k :: downloads r
      | _ => downloads r
      end
  end.

(** Every event a method adds satisfies [phi]. *)
Definition emits {A} (phi : Event -> Prop) (m : M A) : Prop :=
  forall w, exists evs, added w (world_of (m w)) evs /\ Forall phi evs.

(** In the run of [m] from [w] the call [op] was made and raised. *)
Definition raises_at {A} (m : M A) (w : World) (op : Op) : Prop :=
  exists evs e, added w (world_of (m w)) evs /\
    In e evs /\ ev_op e = op /\ ev_ok e = false.


(** The event is no download of a key of [h]. *)
Definition no_download_of (h : list string) (e : Event) : Prop :=
  forall k, ev_op e = S3Download k -> ~ In k h.

(** ** Ledgers *)

(** [h] is an initial segment of [h']. *)
Definition prefix (h h' : list string) : Prop := exists k, h' = h ++ k.

(** The history file [f] holds a list with [x] in it. *)
Definition holds (f : JsonFile) (x : string) : Prop :=
  match f with Content h => In x h | _ => False end.

(** The in-memory history of a ledger. *)
Definition history (l : Ledger) (w : World) : list string :=
  match l with
  | UploadLedger => upload_history w
  | DownloadLedger => download_history w
  end.

(** From [w] to [w'] a ledger was only appended to: the history in memory
    was extended, and its file was left alone, or truncated, or rewritten
    with a list between the two histories. *)
Definition ledger_grows (l : Ledger) (w w' : World) : Prop :=
  prefix (history l w) (history l w') /\
  (ledger_file l (store w') = ledger_file l (store w) \/
   ledger_file l (store w') = Unparseable \/
   exists h, ledger_file l (store w') = Content h /\
             prefix (history l w) h /\ prefix h (history l w')).

(** Both ledgers were only appended to, and the settings were left alone. *)
Definition grows (w w' : World) : Prop :=
  (forall l, ledger_grows l w w') /\
  running w' = running w /\
  sleep_interval w' = sleep_interval w.

(** The file of a ledger, when it holds a list, holds an initial segment of
    the history in memory. *)
Definition file_behind_memory (w : World) : Prop :=
  forall l h, ledger_file l (store w) = Content h -> prefix h (history l w).

(** Calls that write the file of ledger [l]. *)
Definition touches_ledger (l : Ledger) (op : Op) : bool :=
  match op, l with
  | OpenW UploadLedger, UploadLedger
  | JsonDump UploadLedger _, UploadLedger
  | OpenW DownloadLedger, DownloadLedger
  | JsonDump DownloadLedger _, DownloadLedger => true
  | _, _ => false
  end.

(** From [w] to [w'] nothing of ledger [l] has changed. *)
Definition keeps_ledger (l : Ledger) (w w' : World) : Prop :=
  history l w' = history l w /\
  ledger_file l (store w') = ledger_file l (store w).

(** From [w] to [w'] no list held by a history file was changed; a file
    may have been created holding the empty list. *)
Definition files_kept (w w' : World) : Prop :=
  (forall l h, ledger_file l (store w) = Content h ->
               ledger_file l (store w') = Content h) /\
  (forall l h, ledger_file l (store w') = Content h ->
               ledger_file l (store w) = Content h \/ h = []) /\
  input_dir (store w') = input_dir (store w) /\
  archive_dir (store w') = archive_dir (store w) /\
  download_bucket (store w') = download_bucket (store w) /\
  upload_history w' = upload_history w /\
  download_history w' = download_history w.

(** The keys of [files] that a pass starting with history [h] downloads. *)
Fixpoint fresh_keys (h : list string) (files : list string) : list string :=
  match files with
  | [] => []
  | f :: r => if mem f h then fresh_keys h r else f :: fresh_keys (h ++ [f]) r
  end.

(** The download history has no repetition, in memory and in its file. *)
Definition download_ledger_unique (s : State) : Prop :=
  NoDup (download_history (fst s)) /\
  forall h, download_fp (store (fst s)) = Content h -> NoDup h.

(** While the process lives, each history file is behind the memory. *)
Definition settled (s : State) : Prop :=
  snd s <> Died -> file_behind_memory (fst s).

(** A machine whose download history file, if it holds a list, holds one
    without repetition; in particular a machine with no history file. *)
Definition sound_install (st : Store) : Prop :=
  forall h, download_fp st = Content h -> NoDup h.

(** ** Schedules *)

(** A schedule within the life of one process. *)
Definition no_restart (sched : list Action) : bool :=
  forallb (fun a => negb (is_restart a)) sched.

(** The number of steps of the thread in a schedule. *)
Fixpoint count_steps (sched : list Action) : nat :=
  match sched with
  | [] => 0
  | Step :: rest => S (count_steps rest)
  | _ :: rest => count_steps rest
  end.

(** The number of passes of the loop body run along a schedule. *)
Fixpoint passes (l : Loop) (sched : list Action) (s : State) : nat :=
  match sched with
  | [] => 0
  | a :: rest =>
      match a, snd s with
      | Step, InBody => 1
      | _, _ => 0
      end + passes l rest (act l a s)
  end.

(** The seconds spent in [time.sleep] along a schedule. *)
Fixpoint slept (l : Loop) (sched : list Action) (s : State) : nat :=
  match sched with
  | [] => 0
  | a :: rest =>
      match a, snd s with
      | Step, Sleeping (S _) => 1
      | _, _ => 0
      end + slept l rest (act l a s)
  end.

(** What a thread whose flag is cleared may still do: passes, seconds of
    sleep, steps. *)
Definition passes_left (pc : Pc) : nat :=
  match pc with InBody => 1 | _ => 0 end.

Definition sleep_left (s : State) : nat :=
  match snd s with
  | InBody => sleep_interval (fst s)
  | Sleeping k => k
  | _ => 0
  end.

Definition steps_left (s : State) : nat :=
  match snd s with
  | AtWhile => 1
  | InBody => sleep_interval (fst s) + 3
  | Sleeping k => k + 2
  | Returned | Died => 0
  end.

(** ** Machines and worlds used as examples *)

(** A client at rest over a given store, as [__init__] leaves it when both
    history files hold [[]]. *)
Definition idle (st : Store) (tape : list bool) : World :=
  mkWorld st [] [] true 10 tape [].

(** A machine on which the client never ran. *)
Definition fresh_install : Store := mkStore [] [] [] [] [] [] Missing Missing.

(** The input folder holds one file, with a space in its name. *)
Definition one_spaced_file : Store :=
  mkStore [("a b", Regular)] [] [] [] [] [] (Content []) (Content []).

(** The input folder holds a folder and a regular file. *)
Definition mixed_folder : Store :=
  mkStore [("sub", Directory false); ("f.txt", Regular)] [] [] [] [] []
          (Content []) (Content []).

(** The bucket lists two keys, one of them in the download history file. *)
Definition two_keys_one_recorded : Store :=
  mkStore [] [] ["a.txt"] [] [] ["a.txt"; "b.txt"]
          (Content []) (Content ["a.txt"]).

(** The bucket lists one key. *)
Definition one_key : Store :=
  mkStore [] [] [] [] [] ["k"] (Content []) (Content []).

(** A world in which the transfer of a download returns and the playback of
    the notification raises. *)
Definition playback_breaks : World :=
  mkWorld one_key [] [] true 10 [false; false; true] [].

(** Two files to upload and two keys to download. *)
Definition two_files : Store :=
  mkStore [("a", Regular); ("b", Regular)] [] [] [] [] ["k1"; "k2"]
          (Content []) (Content []).

(** The scan and the stat of ["a"] return, the upload of ["a"] raises. *)
Definition first_upload_breaks : World :=
  mkWorld two_files [] [] true 10 [false; false; true] [].

(** The listing returns, the download of ["k1"] raises. *)
Definition first_download_breaks : World :=
  mkWorld two_files [] [] true 10 [false; true] [].

(** A client asleep after a pass, its flag cleared by the signal. *)
Definition signalled_asleep : State :=
  (mkWorld fresh_install [] [] false 10 [] [], Sleeping 10).

(** ** The persistent state after an upload *)

(** Putting a key in a bucket. *)
Definition bucket_put (key : string) (b : list string) : list string :=
  if mem key b then b else b ++ [key].

(** The store a returned upload of [file], found with kind [k], leaves. *)
Definition uploaded (file : string) (k : Kind) (h : list string) (st : Store)
  : Store :=
  mkStore (dir_remove (target file) (dir_remove file (input_dir st)))
          (dir_put (target file) k (archive_dir st))
          (output_dir st)
          (output_folders st)
          (bucket_put (target file) (upload_bucket st))
          (download_bucket st)
          (Content (h ++ [target file]))
          (download_fp st).

(** ** Further vocabulary *)

(** Each history file holds exactly the history in memory. *)
Definition in_sync (w : World) : Prop :=
  forall l, ledger_file l (store w) = Content (history l w).

(** The ledger a loop writes, and that its file holds exactly its history. *)
Definition ledger_of (l : Loop) : Ledger :=
  match l with
  | UploadLoop => UploadLedger
  | DownloadLoop => DownloadLedger
  end.

Definition synced (ldg : Ledger) (w : World) : Prop :=
  ledger_file ldg (store w) = Content (history ldg w).

(** A key that names a file directly in the output folder, where no folder
    of that name stands. *)
Definition plain (key : string) (folders : list string) : bool :=
  match place key with
  | Here n => negb (mem n folders)
  | _ => false
  end.

(** From [w] to [w'] nothing the download loop works on has changed. *)
Definition download_side_kept (w w' : World) : Prop :=
  download_history w' = download_history w /\
  download_fp (store w') = download_fp (store w) /\
  output_dir (store w') = output_dir (store w) /\
  download_bucket (store w') = download_bucket (store w).

(** From [w] to [w'] nothing the upload loop works on has changed. *)
Definition upload_side_kept (w w' : World) : Prop :=
  upload_history w' = upload_history w /\
  upload_fp (store w') = upload_fp (store w) /\
  input_dir (store w') = input_dir (store w) /\
  archive_dir (store w') = archive_dir (store w) /\
  upload_bucket (store w') = upload_bucket (store w).

(** The calls made by the upload loop, and those made by the download loop. *)
Definition upload_op (op : Op) : bool :=
  match op with
  | Glob | OsRename _ _ | OsStat _ | S3Upload _ _ | OsArchive _
  | OpenW UploadLedger | JsonDump UploadLedger _ => true
  | _ => false
  end.

Definition download_op (op : Op) : bool :=
  match op with
  | S3List | S3Download _ | Playsound
  | OpenW DownloadLedger | JsonDump DownloadLedger _ => true
  | _ => false
  end.

(** The input folder lists a name with a space and, after it, the same name
    with an underscore. *)
Definition clashing_names : Store :=
  mkStore [("a b", Regular); ("a_b", Regular)] [] [] [] [] []
          (Content []) (Content []).

(** * Properties *)

(** ** Names *)

Section Names.
Variables old new : ascii.

Lemma contains_replace :
  old <> new -> forall s, contains old (replace old new s) = false.
Proof.
  intros Hne s. induction s as [|a r IH]; simpl; [reflexivity|].
  destruct (Ascii.eqb_spec a old) as [->|Ha].
  - destruct (Ascii.eqb_spec new old) as [E|_]; [congruence|exact IH].
  - destruct (Ascii.eqb_spec a old) as [E|_]; [congruence|exact IH].
Qed.

Lemma replace_without :
  forall s, contains old s = false -> replace old new s = s.
Proof.
  induction s as [|a r IH]; simpl; [reflexivity|].
  destruct (Ascii.eqb a old); [discriminate|].
  intros H. now rewrite IH.
Qed.

End Names.

Lemma space_not_underscore : space <> underscore.
Proof. discriminate. Qed.

Lemma mem_In x l : mem x l = true <-> In x l.
Proof.
  unfold mem. rewrite existsb_exists. split.
  - intros [y [Hy E]]. apply String.eqb_eq in E. now subst.
  - intros H. exists x. split; [assumption|apply String.eqb_refl].
Qed.

Lemma mem_not_In x l : mem x l = false <-> ~ In x l.
Proof.
  rewrite <- mem_In. destruct (mem x l); split; intros; congruence.
Qed.

(** ** Folders *)

Lemma dir_lookup_app n d1 d2 :
  dir_lookup n (d1 ++ d2) =
  match dir_lookup n d1 with Some k => Some k | None => dir_lookup n d2 end.
Proof.
  induction d1 as [|[m k] r IH]; simpl; [reflexivity|].
  now destruct (String.eqb n m).
Qed.

Lemma dir_lookup_remove_same n d : dir_lookup n (dir_remove n d) = None.
Proof.
  induction d as [|[m k] r IH]; simpl; [reflexivity|].
  destruct (String.eqb n m) eqn:E; [exact IH|]. simpl. now rewrite E.
Qed.

Lemma dir_lookup_remove_other n m d :
  n <> m -> dir_lookup n (dir_remove m d) = dir_lookup n d.
Proof.
  intros Hne. induction d as [|[x k] r IH]; simpl; [reflexivity|].
  destruct (String.eqb_spec m x) as [->|Hmx].
  - destruct (String.eqb_spec n x); [congruence|exact IH].
  - simpl. now rewrite IH.
Qed.

Lemma dir_lookup_put_same n k d : dir_lookup n (dir_put n k d) = Some k.
Proof.
  unfold dir_put. rewrite dir_lookup_app, dir_lookup_remove_same.
  simpl. now rewrite String.eqb_refl.
Qed.


Lemma dir_lookup_names n d : In n (names d) <-> dir_lookup n d <> None.
Proof.
  induction d as [|[m k] r IH]; simpl.
  - split; [intros []|congruence].
  - destruct (String.eqb_spec n m) as [->|Hne].
    + split; [discriminate|auto].
    + rewrite <- IH. split; [intros [E|H]; [congruence|assumption]|auto].
Qed.

(** ** Running calls *)

Lemma call_cases op w :
  (exists s', next_fault w = false /\ apply_op op (store w) = Some s' /\
              call op w = Ret tt (log op true s' w)) \/
  ((next_fault w = true \/ apply_op op (store w) = None) /\
   call op w = Raise (log op false (store w) w)).
Proof.
  unfold call. destruct (next_fault w).
  - right. auto.
  - destruct (apply_op op (store w)) as [s'|].
    + left. exists s'. auto.
    + right. auto.
Qed.

(** Runs the next call of the method under the goal along both outcomes. *)
Ltac run_call :=
  match goal with
  | |- context [call ?op ?w] =>
      let s := fresh "s" in
      let Hf := fresh "Hfault" in
      let Ha := fresh "Hop" in
      let Hc := fresh "Hcall" in
      destruct (call_cases op w) as [[s [Hf [Ha Hc]]]|[Hf Hc]];
      rewrite Hc; clear Hc; cbn beta iota
  end.

Ltac run_method m :=
  unfold m, bind, ret, read, upload_history_append, download_history_append;
  cbn beta iota.

Lemma added_refl w : added w w [].
Proof. unfold added. now rewrite app_nil_r. Qed.

Lemma added_trans w1 w2 w3 e1 e2 :
  added w1 w2 e1 -> added w2 w3 e2 -> added w1 w3 (e1 ++ e2).
Proof. unfold added. intros H1 H2. now rewrite H2, H1, app_assoc. Qed.

Lemma added_inj w w' e1 e2 : added w w' e1 -> added w w' e2 -> e1 = e2.
Proof. unfold added. intros H1 H2. rewrite H1 in H2. now apply app_inv_head in H2. Qed.


Ltac run_calls := repeat run_call.

Ltac show_added :=
  unfold added; cbn [world_of trace log]; rewrite <- ?app_assoc; cbn [app];
  reflexivity.

(** Splits [In e [e1; ...; en]] into its cases, reading the call of each. *)
Ltac each_event HIn He :=
  cbn [In] in HIn;
  repeat (destruct HIn as [<-|HIn]; [cbn [ev_op ev_ok ev_store] in He|]);
  try contradiction.

(** ** Every event of a method satisfies a property *)

Section Emits.
Variable phi : Event -> Prop.

Lemma emits_ret {A} (a : A) : emits phi (ret a).
Proof. intros w. exists []. split; [apply added_refl|constructor]. Qed.

Lemma emits_read {A} (f : World -> A) : emits phi (read f).
Proof. intros w. exists []. split; [apply added_refl|constructor]. Qed.

Lemma emits_bind {A B} (m : M A) (f : A -> M B) :
  emits phi m -> (forall a, emits phi (f a)) -> emits phi (bind m f).
Proof.
  intros Hm Hf w. destruct (Hm w) as [e1 [H1 F1]].
  unfold bind. destruct (m w) as [a w1|w1]; cbn [world_of] in *.
  - destruct (Hf a w1) as [e2 [H2 F2]]. exists (e1 ++ e2). split.
    + eapply added_trans; eassumption.
    + apply Forall_app. now split.
  - exists e1. now split.
Qed.

Lemma emits_call op :
  (forall ok s, phi (mkEvent op ok s)) -> emits phi (call op).
Proof.
  intros H w. destruct (call_cases op w) as [[s [_ [_ ->]]]|[_ ->]];
    (eexists; split; [show_added|repeat constructor; apply H]).
Qed.

Lemma emits_upload_files :
  (forall file, emits phi (_upload_file file)) ->
  forall files, emits phi (_upload_files files).
Proof.
  intros H files. induction files as [|file rest IH]; cbn [_upload_files].
  - apply emits_ret.
  - apply emits_bind; [apply H|intros _; exact IH].
Qed.

Lemma emits_manage_input_body :
  (forall ok s, phi (mkEvent Glob ok s)) ->
  (forall file, emits phi (_upload_file file)) ->
  emits phi _manage_input_body.
Proof.
  intros HG H. unfold _manage_input_body, _check_input_files.
  apply emits_bind.
  - apply emits_bind; [now apply emits_call|intros _; apply emits_read].
  - intros [|f r]; [apply emits_ret|now apply emits_upload_files].
Qed.
End Emits.

(** ** Renaming of names with spaces *)






(** ** One upload that returns *)

(** Reads the effect of the calls that returned. *)
Ltac open_ops :=
  cbn [apply_op] in *;
  repeat match goal with
  | H : match dir_lookup ?n ?d with _ => _ end = Some _ |- _ =>
      let E := fresh "Hlook" in
      destruct (dir_lookup n d) eqn:E; [|discriminate H]
  | H : match ?k with Regular => _ | Directory _ => _ end = Some _ |- _ =>
      destruct k; [|discriminate H]
  | H : (if can_replace ?k ?d then _ else _) = Some _ |- _ =>
      let E := fresh "Hrep" in
      destruct (can_replace k d) eqn:E; [|discriminate H]
  | H : (if mem ?k ?l then _ else _) = Some _ |- _ =>
      let E := fresh "Hmem" in
      destruct (mem k l) eqn:E; [|discriminate H]
  | H : (if lands ?k ?l then _ else _) = Some _ |- _ =>
      let E := fresh "Hlands" in
      destruct (lands k l) eqn:E; [|discriminate H]
  | H : Some _ = Some ?s |- _ => injection H as H; subst s
  end;
  cbn [store log upload_history download_history running sleep_interval
       input_dir archive_dir output_dir output_folders upload_bucket
       download_bucket upload_fp download_fp set_ledger_file world_of] in *.

Ltac forget_faults :=
  repeat match goal with H : next_fault _ = _ |- _ => clear H end.

Lemma upload_file_ret file w w' :
  _upload_file file w = Ret tt w' ->
  exists k,
    dir_lookup file (input_dir (store w)) = Some k /\
    upload_history w' = upload_history w ++ [target file] /\
    upload_fp (store w') = Content (upload_history w ++ [target file]) /\
    dir_lookup (target file) (archive_dir (store w')) = Some k /\
    dir_lookup (target file) (input_dir (store w')) = None /\
    download_history w' = download_history w /\
    download_fp (store w') = download_fp (store w) /\
    running w' = running w /\
    sleep_interval w' = sleep_interval w /\
    exists evs,
      added w w' (evs ++ [mkEvent (OsArchive (target file)) true (store w')]).
Proof.
  run_method _upload_file. unfold target.
  destruct (contains space file) eqn:Hsp; cbn beta iota.
  - run_calls; try discriminate.
    intros E. injection E as <-. forget_faults. open_ops.
    rewrite dir_lookup_put_same in Hlook. injection Hlook as <-.
    exists k2. rewrite dir_lookup_put_same, dir_lookup_remove_same.
    repeat (split; [reflexivity|]).
    eexists [_; _; _; _; _]. show_added.
  - run_calls; try discriminate.
    intros E. injection E as <-. forget_faults. open_ops.
    rewrite Hlook1 in Hlook. injection Hlook as <-.
    exists k1. rewrite dir_lookup_put_same, dir_lookup_remove_same.
    repeat (split; [reflexivity|]).
    eexists [_; _; _; _]. show_added.
Qed.

(** ** The name in the archive *)

(** C7, as stated, fails: the file found as ["a b"] is uploaded and then
    sits in the archive as ["a_b"]; the archive has no entry ["a b"]. *)
Lemma archive_name_is_not_original :
  exists w',
    _upload_file "a b" (idle one_spaced_file []) = Ret tt w' /\
    archive_dir (store w') = [("a_b", Regular)] /\
    dir_lookup "a b" (archive_dir (store w')) = None.
Proof. eexists. split; [vm_compute; reflexivity|split; reflexivity]. Qed.

(** C7, amended: an upload that returns has moved the file into the archive
    under the name it was uploaded under, which is the name found in the
    input folder with every space replaced by an underscore; this is the
    name found exactly when that name has no space.  The move is the last
    call of the upload and the entry is gone from the input folder. *)
Theorem archive_name_is_renamed (file : string) (w w' : World) :
  _upload_file file w = Ret tt w' ->
  target file = replace space underscore file /\
  (target file = file <-> contains space file = false) /\
  dir_lookup (target file) (archive_dir (store w'))
  = dir_lookup file (input_dir (store w)) /\
  dir_lookup file (input_dir (store w)) <> None /\
  dir_lookup (target file) (input_dir (store w')) = None /\
  exists evs,
    added w w' (evs ++ [mkEvent (OsArchive (target file)) true (store w')]).
Proof.
  intros H.
  destruct (upload_file_ret file w w' H)
    as [k [Hk [_ [_ [Ha [Hi [_ [_ [_ [_ Hev]]]]]]]]]].
  split; [|split; [|split; [|split; [|split]]]].
  - unfold target. destruct (contains space file) eqn:E; [reflexivity|].
    symmetry. now apply replace_without.
  - unfold target. destruct (contains space file) eqn:E.
    + split; [|discriminate]. intros Eq. rewrite <- Eq in E.
      rewrite contains_replace in E by apply space_not_underscore. discriminate.
    + split; reflexivity.
  - now rewrite Ha, Hk.
  - rewrite Hk. discriminate.
  - exact Hi.
  - exact Hev.
Qed.

Lemma archive_name_is_renamed_witness :
  dir_lookup (target "a b")
    (archive_dir (store (world_of (_upload_file "a b" (idle one_spaced_file [])))))
  = dir_lookup "a b" (input_dir (store (idle one_spaced_file []))).
Proof.
  assert (H : _upload_file "a b" (idle one_spaced_file [])
              = Ret tt (world_of (_upload_file "a b" (idle one_spaced_file []))))
    by (vm_compute; reflexivity).
  destruct (archive_name_is_renamed _ _ _ H) as [_ [_ [H2 _]]].
  exact H2.
Defined.

(** ** Recording precedes archiving *)

Lemma before_here (t1 t2 t3 : list Event) d e :
  before (t1 ++ d :: t2 ++ e :: t3) d e.
Proof. now exists t1, t2, t3. Qed.

(** C2: in the upload of one file the move into the archive is only ever
    called after the name was appended to the upload history and that
    history was written to its file with success, and the file still holds
    it when the move is called; so after every call of the upload, and when
    the upload ends (returning or raising), either the archive is as it was
    before the upload or the history file holds the name. *)
Theorem ledger_flush_precedes_archive (file : string) (w : World) :
  exists evs, added w (world_of (_upload_file file w)) evs /\
    (forall e n, In e evs -> ev_op e = OsArchive n ->
       n = target file /\
       exists d, before evs d e /\ ev_ok d = true /\
         ev_op d = JsonDump UploadLedger (upload_history w ++ [target file]) /\
         upload_fp (ev_store d) = Content (upload_history w ++ [target file]) /\
         upload_fp (ev_store e) = Content (upload_history w ++ [target file])) /\
    (forall e, In e evs ->
       archive_dir (ev_store e) = archive_dir (store w) \/
       holds (upload_fp (ev_store e)) (target file)) /\
    (archive_dir (store (world_of (_upload_file file w))) = archive_dir (store w) \/
     holds (upload_fp (store (world_of (_upload_file file w)))) (target file)).
Proof.
  run_method _upload_file. unfold target.
  destruct (contains space file) eqn:Hsp; cbn beta iota.
  - run_calls.
    all: forget_faults; open_ops.
    all: eexists; (split; [show_added|]).
    all: split; [|split].
    all: try (intros e n HIn He; each_event HIn He; try discriminate He).
    all: try (intros e HIn; pose proof I as He; each_event HIn He;
              cbn [ev_store archive_dir upload_fp holds];
              try (left; reflexivity); right; apply in_or_app; right; left;
              reflexivity).
    all: try (left; reflexivity).
    all: try (right; apply in_or_app; right; left; reflexivity).
    all: injection He as <-; split; [reflexivity|].
    all: eexists; split; [refine (before_here [_; _; _; _] [] [] _ _)|].
    all: repeat split.
  - run_calls.
    all: forget_faults; open_ops.
    all: eexists; (split; [show_added|]).
    all: split; [|split].
    all: try (intros e n HIn He; each_event HIn He; try discriminate He).
    all: try (intros e HIn; pose proof I as He; each_event HIn He;
              cbn [ev_store archive_dir upload_fp holds];
              try (left; reflexivity); right; apply in_or_app; right; left;
              reflexivity).
    all: try (left; reflexivity).
    all: try (right; apply in_or_app; right; left; reflexivity).
    all: injection He as <-; split; [reflexivity|].
    all: eexists; split; [refine (before_here [_; _; _] [] [] _ _)|].
    all: repeat split.
Qed.

(** ** The candidates of an upload pass *)

Lemma upload_files_app pre post w :
  _upload_files (pre ++ post) w = (_upload_files pre ;; _upload_files post) w.
Proof.
  revert w. induction pre as [|f r IH]; intros w; cbn [_upload_files app].
  - reflexivity.
  - unfold bind. destruct (_upload_file f w) as [[] w1|w1]; [|reflexivity].
    rewrite IH. reflexivity.
Qed.

Lemma upload_file_ret_regular file w w' :
  _upload_file file w = Ret tt w' ->
  dir_lookup file (input_dir (store w)) = Some Regular.
Proof.
  run_method _upload_file.
  destruct (contains space file) eqn:Hsp; cbn beta iota.
  - run_calls; try discriminate.
    intros _. forget_faults. open_ops.
    rewrite dir_lookup_put_same in *. congruence.
  - run_calls; try discriminate.
    intros _. forget_faults. open_ops. congruence.
Qed.

Lemma upload_of_a_folder file e w :
  dir_lookup file (input_dir (store w)) = Some (Directory e) ->
  returned (_upload_file file w) = false.
Proof.
  intros Hk. destruct (_upload_file file w) as [[] w'|w'] eqn:Hr; [|reflexivity].
  apply upload_file_ret_regular in Hr. rewrite Hr in Hk. discriminate Hk.
Qed.

Lemma no_fault_left op ok s w :
  oracle w = [] -> oracle (log op ok s w) = [].
Proof. intros H. cbn [oracle log]. now rewrite H. Qed.

Lemma no_fault op w :
  oracle w = [] ->
  call op w = match apply_op op (store w) with
              | Some s' => Ret tt (log op true s' w)
              | None => Raise (log op false (store w) w)
              end.
Proof. intros H. unfold call, next_fault. now rewrite H. Qed.

Ltac quiet_call :=
  match goal with
  | |- context [call ?op ?w1] =>
      rewrite (no_fault op w1) by (repeat apply no_fault_left; assumption)
  end.

(** With no fault from outside, the rename and the stat of an entry return
    whatever its kind, and the S3 upload is called for it: it returns for a
    regular file and raises for a folder. *)
Lemma upload_call_is_made file k w :
  oracle w = [] ->
  dir_lookup file (input_dir (store w)) = Some k ->
  (contains space file = true ->
   can_replace k (dir_lookup (target file) (input_dir (store w))) = true) ->
  exists evs e,
    added w (world_of (_upload_file file w)) evs /\ In e evs /\
    ev_op e = S3Upload (target file) (target file) /\
    ev_ok e = match k with Regular => true | Directory _ => false end.
Proof.
  intros Ho Hk Hrep. unfold target in *. run_method _upload_file.
  destruct (contains space file) eqn:Hsp; cbn beta iota.
  - specialize (Hrep eq_refl).
    quiet_call. cbn [apply_op]. rewrite Hk, Hrep. cbn beta iota.
    quiet_call. cbn [apply_op store log input_dir]. rewrite dir_lookup_put_same.
    cbn beta iota.
    quiet_call. cbn [apply_op store log input_dir]. rewrite dir_lookup_put_same.
    destruct k as [|e]; cbn beta iota.
    + run_calls.
      all: eexists; eexists; (split; [show_added|]).
      all: (split; [right; right; left; reflexivity|split; reflexivity]).
    + eexists; eexists; (split; [show_added|]).
      split; [right; right; left; reflexivity|split; reflexivity].
  - clear Hrep.
    quiet_call. cbn [apply_op]. rewrite Hk. cbn beta iota.
    quiet_call. cbn [apply_op store log input_dir]. rewrite Hk.
    destruct k as [|e]; cbn beta iota.
    + run_calls.
      all: eexists; eexists; (split; [show_added|]).
      all: (split; [right; left; reflexivity|split; reflexivity]).
    + eexists; eexists; (split; [show_added|]).
      split; [right; left; reflexivity|split; reflexivity].
Qed.

(** C10, as stated, fails for the entries listed after a folder.  The scan
    yields the folder ["sub"] and then the file ["f.txt"]; ["sub"] passes
    the stat and is handed to the S3 upload, which raises on a folder; the
    exception ends the pass: no call is made for ["f.txt"], and both
    entries are still in the input folder. *)
Lemma entries_after_a_folder_are_not_handed_on :
  names (input_dir mixed_folder) = ["sub"; "f.txt"] /\
  returned (_manage_input_body (idle mixed_folder [])) = false /\
  map (fun e => (ev_op e, ev_ok e))
      (trace (world_of (_manage_input_body (idle mixed_folder []))))
  = [(Glob, true); (OsStat "sub", true); (S3Upload "sub" "sub", false)] /\
  input_dir (store (world_of (_manage_input_body (idle mixed_folder []))))
  = input_dir mixed_folder.
Proof. repeat split; vm_compute; reflexivity. Qed.

(** C10, amended: when the scan of the input folder returns, the files
    handed to the upload of one pass are the names of all entries of the
    folder, whatever their kind; each of them is handed to [_upload_file]
    in turn, once the uploads of the entries before it have returned.
    [_upload_file] makes no check of the kind: with no fault from outside
    the entry is renamed if its name has a space, passes the stat, and the
    S3 upload is called for it, for a folder as for a file.  That call
    raises for a folder, so the upload of a folder never returns, and the
    pass ends there, the entries after the folder not being handed on. *)
Theorem every_entry_is_a_candidate (w : World) :
  next_fault w = false ->
  _check_input_files w
  = Ret (names (input_dir (store w))) (log Glob true (store w) w) /\
  _manage_input_body w
  = _upload_files (names (input_dir (store w))) (log Glob true (store w) w) /\
  (forall n k, In (n, k) (input_dir (store w)) ->
     exists pre post, names (input_dir (store w)) = pre ++ n :: post /\
       forall w0 w1, _upload_files pre w0 = Ret tt w1 ->
         _upload_files (pre ++ n :: post) w0
         = (_upload_file n ;; _upload_files post) w1) /\
  (forall file k w0,
     oracle w0 = [] ->
     dir_lookup file (input_dir (store w0)) = Some k ->
     (contains space file = true ->
      can_replace k (dir_lookup (target file) (input_dir (store w0))) = true) ->
     exists evs e,
       added w0 (world_of (_upload_file file w0)) evs /\ In e evs /\
       ev_op e = S3Upload (target file) (target file) /\
       ev_ok e = match k with Regular => true | Directory _ => false end) /\
  (forall file e post w0,
     dir_lookup file (input_dir (store w0)) = Some (Directory e) ->
     _upload_files (file :: post) w0 = Raise (world_of (_upload_file file w0))).
Proof.
  intros Hf.
  assert (Hscan : _check_input_files w
                  = Ret (names (input_dir (store w))) (log Glob true (store w) w)).
  { unfold _check_input_files, bind, call, read. rewrite Hf. reflexivity. }
  split; [exact Hscan|]. split; [|split; [|split]].
  - unfold _manage_input_body, bind. rewrite Hscan.
    destruct (names (input_dir (store w))); reflexivity.
  - intros n k HIn.
    assert (Hn : In n (names (input_dir (store w)))).
    { unfold names. apply in_map_iff. exists (n, k). now split. }
    destruct (in_split _ _ Hn) as [pre [post E]].
    exists pre, post. split; [exact E|].
    intros w0 w1 Hpre. rewrite upload_files_app. unfold bind at 1.
    rewrite Hpre. reflexivity.
  - apply upload_call_is_made.
  - intros file e post w0 Hk. cbn [_upload_files]. unfold bind.
    pose proof (upload_of_a_folder file e w0 Hk) as Hr.
    destruct (_upload_file file w0); [discriminate Hr|reflexivity].
Qed.

Lemma every_entry_is_a_candidate_witness :
  _check_input_files (idle mixed_folder [])
  = Ret ["sub"; "f.txt"] (log Glob true mixed_folder (idle mixed_folder [])).
Proof.
  exact (proj1 (every_entry_is_a_candidate (idle mixed_folder []) eq_refl)).
Defined.

(** ** One pass of the download loop *)

Lemma download_file_events file w :
  exists evs, added w (world_of (_download_file file w)) evs /\
    (forall e k, In e evs -> ev_op e = S3Download k ->
       k = file /\ (ev_ok e = true -> In k (download_bucket (store w)))).
Proof.
  run_method _download_file. run_calls.
  all: forget_faults; open_ops.
  all: eexists; (split; [show_added|]).
  all: intros e k HIn He; each_event HIn He; try discriminate He.
  all: injection He as <-; split; [reflexivity|].
  all: try (intros _; now apply mem_In).
  all: discriminate.
Qed.

Lemma download_file_ret file w w' :
  _download_file file w = Ret tt w' ->
  In file (download_bucket (store w)) /\
  download_history w' = download_history w ++ [file] /\
  download_fp (store w') = Content (download_history w ++ [file]) /\
  In file (output_dir (store w')) /\
  (forall k, In k (output_dir (store w)) -> In k (output_dir (store w'))) /\
  download_bucket (store w') = download_bucket (store w) /\
  upload_history w' = upload_history w /\
  upload_fp (store w') = upload_fp (store w) /\
  running w' = running w /\
  sleep_interval w' = sleep_interval w /\
  exists s1 s2 s3 s4,
    added w w' [mkEvent (S3Download file) true s1; mkEvent Playsound true s2;
                mkEvent (OpenW DownloadLedger) true s3;
                mkEvent (JsonDump DownloadLedger (download_history w ++ [file])) true s4].
Proof.
  run_method _download_file. run_calls; try discriminate.
  intros E. injection E as <-. forget_faults. open_ops.
  apply mem_In in Hmem.
  split; [exact Hmem|]. do 2 (split; [reflexivity|]).
  split; [|split].
  - destruct (mem file (output_dir (store w))) eqn:Ho.
    + now apply mem_In.
    + apply in_or_app. right. now left.
  - intros k Hk. destruct (mem file (output_dir (store w))); [exact Hk|].
    apply in_or_app. now left.
  - repeat (split; [reflexivity|]).
    do 4 eexists. show_added.
Qed.

Lemma fresh_keys_In k files : forall h,
  In k (fresh_keys h files) <-> In k files /\ ~ In k h.
Proof.
  induction files as [|f r IH]; intros h; cbn [fresh_keys In].
  - tauto.
  - destruct (mem f h) eqn:Hm.
    + apply mem_In in Hm. rewrite IH. split.
      * tauto.
      * intros [[E|H] Hn]; [subst; contradiction|tauto].
    + apply mem_not_In in Hm. cbn [In]. rewrite IH. split.
      * intros [E|[H Hn]]; [subst; tauto|].
        split; [tauto|]. intros Hk. apply Hn. apply in_or_app. now left.
      * intros [[E|H] Hn]; [now left|].
        destruct (string_dec f k) as [E|Hne]; [now left|right].
        split; [exact H|]. intros Hk. apply in_app_or in Hk.
        destruct Hk as [Hk|[Hk|[]]]; congruence.
Qed.


Lemma before_app_r t t' d e : before t d e -> before (t' ++ t) d e.
Proof.
  intros [t1 [t2 [t3 ->]]]. exists (t' ++ t1), t2, t3.
  now rewrite <- !app_assoc.
Qed.

Lemma downloads_for_events files : forall w,
  exists evs, added w (world_of (_check_for_downloads_for files w)) evs /\
    forall e k, In e evs -> ev_op e = S3Download k ->
      In k files /\ ~ In k (download_history w) /\
      (ev_ok e = true -> In k (download_bucket (store w))).
Proof.
  induction files as [|file rest IH]; intros w; cbn [_check_for_downloads_for].
  - exists []. split; [apply added_refl|]. intros e k [].
  - unfold bind at 1. unfold read. cbn beta iota.
    destruct (mem file (download_history w)) eqn:Hm.
    + unfold bind, ret. destruct (IH w) as [evs [Ha Hk]].
      exists evs. split; [exact Ha|]. intros e k HIn He.
      destruct (Hk e k HIn He) as [H1 H2]. split; [now right|exact H2].
    + apply mem_not_In in Hm. unfold bind.
      destruct (download_file_events file w) as [e1 [Ha1 Hk1]].
      destruct (_download_file file w) as [[] w1|w1] eqn:Hd; cbn [world_of] in *.
      * destruct (download_file_ret file w w1 Hd)
          as [_ [Hh [_ [_ [_ [Hb _]]]]]].
        destruct (IH w1) as [e2 [Ha2 Hk2]].
        exists (e1 ++ e2). split; [eapply added_trans; eassumption|].
        intros e k HIn He. apply in_app_or in HIn. destruct HIn as [HIn|HIn].
        -- destruct (Hk1 e k HIn He) as [-> Hok]. split; [now left|].
           split; assumption.
        -- destruct (Hk2 e k HIn He) as [H1 [H2 H3]]. split; [now right|].
           rewrite Hh, Hb in *. split; [|exact H3].
           intros Hk. apply H2. apply in_or_app. now left.
      * exists e1. split; [exact Ha1|]. intros e k HIn He.
        destruct (Hk1 e k HIn He) as [-> Hok]. split; [now left|].
        split; assumption.
Qed.

Lemma downloads_for_ret files : forall w w',
  _check_for_downloads_for files w = Ret tt w' ->
  exists evs, added w w' evs /\
    downloads evs = fresh_keys (download_history w) files /\
    download_history w' = download_history w ++ downloads evs /\
    (downloads evs <> [] -> download_fp (store w') = Content (download_history w')) /\
    (downloads evs = [] -> download_fp (store w') = download_fp (store w)) /\
    (forall k, In k (output_dir (store w)) -> In k (output_dir (store w'))) /\
    (forall k, In k (downloads evs) -> In k (output_dir (store w'))) /\
    download_bucket (store w') = download_bucket (store w) /\
    (forall e k, In e evs -> ev_op e = S3Download k ->
       ev_ok e = true /\
       exists d h, before evs e d /\ ev_ok d = true /\
         ev_op d = JsonDump DownloadLedger h /\ In k h).
Proof.
  induction files as [|file rest IH]; intros w w'; cbn [_check_for_downloads_for].
  - unfold ret. intros E. injection E as <-. exists [].
    split; [apply added_refl|]. cbn [downloads fresh_keys]. rewrite app_nil_r.
    split; [reflexivity|]. split; [reflexivity|]. split; [congruence|].
    split; [reflexivity|]. split; [auto|]. split; [intros k []|].
    split; [reflexivity|]. intros e k [].
  - unfold bind at 1. unfold read. cbn beta iota.
    destruct (mem file (download_history w)) eqn:Hm; cbn [fresh_keys]; rewrite Hm.
    + unfold bind, ret. apply IH.
    + unfold bind.
      destruct (_download_file file w) as [[] w1|w1] eqn:Hd; [|discriminate].
      intros Hrest.
      destruct (download_file_ret file w w1 Hd)
        as [_ [Hh [Hfp [Hout [Hmono [Hb [_ [_ [_ [_ [s1 [s2 [s3 [s4 Ha1]]]]]]]]]]]]]].
      destruct (IH w1 w' Hrest)
        as [e2 [Ha2 [Hd2 [Hh2 [Hfp2 [Hfp2' [Hmono2 [Hout2 [Hb2 Hord2]]]]]]]]].
      rewrite Hh in Hd2, Hh2.
      eexists. split; [eapply added_trans; eassumption|].
      cbn [app downloads ev_op].
      split; [now rewrite Hd2|]. split; [|split; [|split; [|split; [|split; [|split]]]]].
      * rewrite Hh2, <- app_assoc. reflexivity.
      * intros _. destruct (downloads e2) as [|x l] eqn:E2.
        -- rewrite (Hfp2' eq_refl), Hfp, Hh2, app_nil_r. reflexivity.
        -- apply Hfp2. discriminate.
      * discriminate.
      * auto.
      * intros k [<-|Hk]; [auto|]. now apply Hout2.
      * now rewrite Hb2.
      * intros e k [<-|[<-|[<-|[<-|HIn]]]] He; cbn [ev_op ev_ok] in *;
          try discriminate He.
        -- injection He as <-. split; [reflexivity|].
           eexists; eexists. split; [|split; [|split]].
           ++ apply (before_here [] [_; _] e2).
           ++ reflexivity.
           ++ reflexivity.
           ++ apply in_or_app. right. now left.
        -- destruct (Hord2 e k HIn He) as [Hok [d [h [Hbef Hrest']]]].
           split; [exact Hok|]. exists d, h. split; [|exact Hrest'].
           apply (before_app_r e2 [_; _; _; _]). exact Hbef.
Qed.



(** The pass over a bucket listing ["a.txt"] and ["b.txt"], with ["a.txt"]
    already in the history, downloads ["b.txt"] alone. *)
Example recorded_key_is_skipped :
  ops (trace (world_of (_check_for_downloads
                 (mkWorld two_keys_one_recorded [] ["a.txt"] true 10 [] [])))) =
  [S3List; S3Download "b.txt"; Playsound; OpenW DownloadLedger;
   JsonDump DownloadLedger ["a.txt"; "b.txt"]].
Proof. vm_compute. reflexivity. Qed.

(** ** Exceptions are not caught *)

(** Reads a hypothesis [raises_at m w op] against the events of the path
    at hand; only the paths where [op] raised survive. *)
Ltac use_raise H :=
  let evs := fresh "evs" in
  let e := fresh "e" in
  let Ha := fresh "Ha" in
  let HIn := fresh "HIn" in
  let He := fresh "He" in
  destruct H as [evs [e [Ha [HIn He]]]];
  cbn [world_of] in Ha;
  eapply added_inj in Ha; [|show_added];
  subst evs; each_event HIn He;
  try (destruct He as [He ?]; discriminate).

(** A pass that raises ends the thread: no later step of it does anything. *)
Lemma thread_dies l w w' :
  loop_body l w = Raise w' ->
  forall n, exec l (repeat Step (S n)) (w, InBody) = (w', Died).
Proof.
  intros H n. cbn [repeat exec act thread_step]. rewrite H.
  induction n as [|n IH]; [reflexivity|]. cbn [repeat exec act thread_step].
  exact IH.
Qed.

Lemma playback_failure file w :
  raises_at (_download_file file) w Playsound ->
  exists w',
    _download_file file w = Raise w' /\
    download_history w' = download_history w /\
    download_fp (store w') = download_fp (store w) /\
    In file (output_dir (store w')) /\
    ops (trace w') = ops (trace w) ++ [S3Download file; Playsound].
Proof.
  unfold raises_at.
  run_method _download_file. run_calls; intros H.
  all: use_raise H.
  forget_faults. open_ops. eexists. split; [reflexivity|].
  cbn [download_history download_fp store log output_dir trace].
  split; [reflexivity|]. split; [reflexivity|]. split.
  - destruct (mem file (output_dir (store w))) eqn:Ho.
    + now apply mem_In.
    + apply in_or_app. right. now left.
  - unfold ops. rewrite !map_app. rewrite <- app_assoc. reflexivity.
Qed.

(** C4, as stated, fails: the bucket lists ["k"], the transfer returns and
    the playback raises; the pass ends there with ["k"] in the output
    folder, the download history still empty in memory and on disk, no
    write of the history attempted, and the thread of the loop dead. *)
Lemma playback_failure_loses_the_record :
  exists w',
    _check_for_downloads playback_breaks = Raise w' /\
    ops (trace w') = [S3List; S3Download "k"; Playsound] /\
    output_dir (store w') = ["k"] /\
    download_history w' = [] /\
    download_fp (store w') = Content [] /\
    exec DownloadLoop [Step; Step; Step] (playback_breaks, AtWhile) = (w', Died).
Proof. eexists. repeat split; vm_compute; reflexivity. Qed.

(** C4, amended: a failure of the playback is not caught.  It ends the
    download of the key after the transfer and before the append: the
    object is in the output folder, the download history is unchanged in
    memory and on disk, and the pass over the listed keys ends with the
    same exception, the keys after this one left alone. *)
Theorem playback_failure_is_not_ignored
  (file : string) (rest : list string) (w : World) :
  raises_at (_download_file file) w Playsound ->
  mem file (download_history w) = false ->
  exists w',
    _download_file file w = Raise w' /\
    _check_for_downloads_for (file :: rest) w = Raise w' /\
    download_history w' = download_history w /\
    download_fp (store w') = download_fp (store w) /\
    In file (output_dir (store w')) /\
    ops (trace w') = ops (trace w) ++ [S3Download file; Playsound].
Proof.
  intros H Hm.
  destruct (playback_failure file w H) as [w' [Hr [Hh [Hf [Ho Ht]]]]].
  exists w'. split; [exact Hr|]. split; [|now repeat split].
  cbn [_check_for_downloads_for]. unfold bind, read. rewrite Hm, Hr. reflexivity.
Qed.

Lemma playback_failure_is_not_ignored_witness :
  exists w',
    _check_for_downloads_for ["k"; "k2"]
      (mkWorld one_key [] [] true 10 [false; true] []) = Raise w' /\
    download_history w' = [].
Proof.
  assert (H : raises_at (_download_file "k")
                (mkWorld one_key [] [] true 10 [false; true] []) Playsound).
  { eexists. eexists. split; [vm_compute; reflexivity|].
    split; [right; left; reflexivity|]. split; reflexivity. }
  destruct (playback_failure_is_not_ignored "k" ["k2"] _ H eq_refl)
    as [w' [_ [Hp [Hh _]]]].
  exists w'. split; [exact Hp|exact Hh].
Defined.

(** ** A transfer that raises *)

Lemma upload_transfer_failure file w :
  raises_at (_upload_file file) w (S3Upload (target file) (target file)) ->
  exists w',
    _upload_file file w = Raise w' /\
    upload_history w' = upload_history w /\
    upload_fp (store w') = upload_fp (store w) /\
    archive_dir (store w') = archive_dir (store w) /\
    In (target file) (names (input_dir (store w'))).
Proof.
  unfold raises_at, target.
  run_method _upload_file.
  destruct (contains space file) eqn:Hsp; cbn beta iota.
  - run_calls; intros H.
    all: use_raise H.
    all: forget_faults; open_ops.
    all: eexists; split; [reflexivity|].
    all: cbn [upload_history upload_fp archive_dir input_dir store log].
    all: repeat (split; [reflexivity|]).
    all: apply dir_lookup_names; congruence.
  - run_calls; intros H.
    all: use_raise H.
    all: forget_faults; open_ops.
    all: eexists; split; [reflexivity|].
    all: cbn [upload_history upload_fp archive_dir input_dir store log].
    all: repeat (split; [reflexivity|]).
    all: apply dir_lookup_names; congruence.
Qed.

Lemma download_transfer_failure file w :
  raises_at (_download_file file) w (S3Download file) ->
  exists w',
    _download_file file w = Raise w' /\
    download_history w' = download_history w /\
    store w' = store w.
Proof.
  unfold raises_at.
  run_method _download_file. run_calls; intros H.
  all: use_raise H.
  eexists. split; [reflexivity|]. split; reflexivity.
Qed.

Lemma downloads_for_app pre post w :
  _check_for_downloads_for (pre ++ post) w
  = (_check_for_downloads_for pre ;; _check_for_downloads_for post) w.
Proof.
  revert w. induction pre as [|f r IH]; intros w;
    cbn [_check_for_downloads_for app].
  - reflexivity.
  - unfold bind, read. destruct (mem f (download_history w)).
    + unfold ret. rewrite IH. reflexivity.
    + destruct (_download_file f w) as [[] w1|w1]; [|reflexivity].
      rewrite IH. reflexivity.
Qed.

(** C1, as stated, fails for both loops.  The input folder holds ["a"] and
    ["b"] and the upload of ["a"] raises: the pass raises, no call was made
    for ["b"], and the thread of the upload loop is dead.  The bucket lists
    ["k1"] and ["k2"] and the download of ["k1"] raises: the pass raises, no
    call was made for ["k2"], and the thread of the download loop is dead. *)
Lemma transfer_failure_aborts_the_pass :
  (exists w',
     _manage_input_body first_upload_breaks = Raise w' /\
     ops (trace w') = [Glob; OsStat "a"; S3Upload "a" "a"] /\
     names (input_dir (store w')) = ["a"; "b"] /\
     upload_bucket (store w') = [] /\
     exec UploadLoop [Step; Step; Step; Step]
       (first_upload_breaks, AtWhile) = (w', Died)) /\
  (exists w',
     _check_for_downloads first_download_breaks = Raise w' /\
     ops (trace w') = [S3List; S3Download "k1"] /\
     output_dir (store w') = [] /\
     exec DownloadLoop [Step; Step; Step; Step]
       (first_download_breaks, AtWhile) = (w', Died)).
Proof. split; eexists; repeat split; vm_compute; reflexivity. Qed.

(** C1, amended: a failure while transferring one item is not contained.
    When the items before it were processed and its transfer raises, the
    pass over the items raises with it whatever items follow, so these are
    not processed, and the thread of the loop takes no further step.  The
    failing item is left unrecorded and unarchived: for an upload the
    history, its file and the archive are as before the item and the item
    is still in the input folder, under its name without spaces; for a
    download the history and the whole persistent state are as before the
    key, so the key is still absent from the history. *)
Theorem transfer_failure_ends_the_loop :
  (forall pre file post w w1,
     _upload_files pre w = Ret tt w1 ->
     raises_at (_upload_file file) w1 (S3Upload (target file) (target file)) ->
     exists w',
       _upload_file file w1 = Raise w' /\
       _upload_files (pre ++ file :: post) w = Raise w' /\
       upload_history w' = upload_history w1 /\
       upload_fp (store w') = upload_fp (store w1) /\
       archive_dir (store w') = archive_dir (store w1) /\
       In (target file) (names (input_dir (store w')))) /\
  (forall pre file post w w1,
     _check_for_downloads_for pre w = Ret tt w1 ->
     mem file (download_history w1) = false ->
     raises_at (_download_file file) w1 (S3Download file) ->
     exists w',
       _download_file file w1 = Raise w' /\
       _check_for_downloads_for (pre ++ file :: post) w = Raise w' /\
       download_history w' = download_history w1 /\
       store w' = store w1 /\
       ~ In file (download_history w')) /\
  (forall l w w',
     loop_body l w = Raise w' ->
     forall n, exec l (repeat Step (S n)) (w, InBody) = (w', Died)).
Proof.
  split; [|split].
  - intros pre file post w w1 Hpre Hfail.
    destruct (upload_transfer_failure file w1 Hfail) as [w' [Hr Hrest]].
    exists w'. split; [exact Hr|]. split; [|exact Hrest].
    rewrite upload_files_app. unfold bind at 1. rewrite Hpre.
    cbn [_upload_files]. unfold bind. rewrite Hr. reflexivity.
  - intros pre file post w w1 Hpre Hm Hfail.
    destruct (download_transfer_failure file w1 Hfail) as [w' [Hr [Hh Hs]]].
    exists w'. split; [exact Hr|]. split; [|split; [exact Hh|split; [exact Hs|]]].
    + rewrite downloads_for_app. unfold bind at 1. rewrite Hpre.
      cbn [_check_for_downloads_for]. unfold bind, read. rewrite Hm, Hr.
      reflexivity.
    + rewrite Hh. now apply mem_not_In.
  - apply thread_dies.
Qed.

Lemma transfer_failure_ends_the_loop_witness :
  exists w',
    _upload_files ([] ++ "a" :: ["b"])
      (mkWorld two_files [] [] true 10 [false; true] []) = Raise w' /\
    upload_history w' = [] /\
    In (target "a") (names (input_dir (store w'))).
Proof.
  assert (H : raises_at (_upload_file "a")
                (mkWorld two_files [] [] true 10 [false; true] [])
                (S3Upload (target "a") (target "a"))).
  { eexists. eexists. split; [vm_compute; reflexivity|].
    split; [right; left; reflexivity|]. split; reflexivity. }
  destruct (proj1 transfer_failure_ends_the_loop [] "a" ["b"] _ _ eq_refl H)
    as [w' [_ [Hp [Hh [_ [_ Hin]]]]]].
  exists w'. split; [exact Hp|]. split; [exact Hh|exact Hin].
Defined.

(** ** Relations kept along the methods *)

Section Along.
Variable R : World -> World -> Prop.
Hypothesis R_refl : forall w, R w w.
Hypothesis R_trans : forall w1 w2 w3, R w1 w2 -> R w2 w3 -> R w1 w3.

Lemma along_bind {A B} (m : M A) (f : A -> M B) w :
  R w (world_of (m w)) ->
  (forall a w1, m w = Ret a w1 -> R w1 (world_of (f a w1))) ->
  R w (world_of (bind m f w)).
Proof.
  intros Hm Hf. unfold bind. destruct (m w) as [a w1|w1]; cbn [world_of] in *.
  - eapply R_trans; [exact Hm|]. now apply (Hf a).
  - exact Hm.
Qed.

Lemma along_upload_files :
  (forall file w, R w (world_of (_upload_file file w))) ->
  forall files w, R w (world_of (_upload_files files w)).
Proof.
  intros H files. induction files as [|f r IH]; intros w; cbn [_upload_files].
  - apply R_refl.
  - apply along_bind; [apply H|intros _ w1 _; apply IH].
Qed.

Lemma along_manage_input_body :
  (forall w, R w (world_of (call Glob w))) ->
  (forall file w, R w (world_of (_upload_file file w))) ->
  forall w, R w (world_of (_manage_input_body w)).
Proof.
  intros HG H w. unfold _manage_input_body, _check_input_files.
  apply along_bind.
  - apply along_bind; [apply HG|intros _ w1 _; apply R_refl].
  - intros [|f r] w1 _; [apply R_refl|now apply along_upload_files].
Qed.

Lemma along_downloads_for :
  (forall file w, R w (world_of (_download_file file w))) ->
  forall files w, R w (world_of (_check_for_downloads_for files w)).
Proof.
  intros H files. induction files as [|f r IH]; intros w;
    cbn [_check_for_downloads_for].
  - apply R_refl.
  - apply along_bind; [apply R_refl|]. intros h w1 _.
    apply along_bind; [|intros _ w2 _; apply IH].
    destruct (mem f h); [apply R_refl|apply H].
Qed.

Lemma along_check_for_downloads :
  (forall w, R w (world_of (call S3List w))) ->
  (forall file w, R w (world_of (_download_file file w))) ->
  forall w, R w (world_of (_check_for_downloads w)).
Proof.
  intros HL H w. unfold _check_for_downloads, _list_s3_files.
  apply along_bind.
  - apply along_bind; [apply HL|intros _ w1 _; apply R_refl].
  - intros files w1 _. now apply along_downloads_for.
Qed.
End Along.

(** ** Ledgers only grow *)

Lemma prefix_refl h : prefix h h.
Proof. exists []. now rewrite app_nil_r. Qed.

Lemma prefix_trans a b c : prefix a b -> prefix b c -> prefix a c.
Proof. intros [x ->] [y ->]. exists (x ++ y). now rewrite app_assoc. Qed.

Lemma prefix_app h k : prefix h (h ++ k).
Proof. now exists k. Qed.

Lemma prefix_NoDup h h' : prefix h h' -> NoDup h' -> NoDup h.
Proof. intros [k ->] H. now apply NoDup_app_remove_r in H. Qed.

Lemma ledger_grows_refl l w : ledger_grows l w w.
Proof. split; [apply prefix_refl|now left]. Qed.

Lemma ledger_grows_trans l w1 w2 w3 :
  ledger_grows l w1 w2 -> ledger_grows l w2 w3 -> ledger_grows l w1 w3.
Proof.
  intros [P1 F1] [P2 F2]. split; [eapply prefix_trans; eassumption|].
  destruct F2 as [E2|[E2|[h [E2 [Pa Pb]]]]].
  - rewrite E2. destruct F1 as [E1|[E1|[h [E1 [Pa Pb]]]]].
    + now left.
    + right. now left.
    + right. right. exists h. split; [exact E1|]. split; [exact Pa|].
      eapply prefix_trans; eassumption.
  - right. now left.
  - right. right. exists h. split; [exact E2|]. split; [|exact Pb].
    eapply prefix_trans; eassumption.
Qed.

Lemma grows_refl w : grows w w.
Proof. split; [intros l; apply ledger_grows_refl|now split]. Qed.

Lemma grows_trans w1 w2 w3 : grows w1 w2 -> grows w2 w3 -> grows w1 w3.
Proof.
  intros [L1 [R1 S1]] [L2 [R2 S2]]. split; [|split; congruence].
  intros l. eapply ledger_grows_trans; [apply L1|apply L2].
Qed.

Lemma keeps_ledger_refl l w : keeps_ledger l w w.
Proof. now split. Qed.

Lemma keeps_ledger_trans l w1 w2 w3 :
  keeps_ledger l w1 w2 -> keeps_ledger l w2 w3 -> keeps_ledger l w1 w3.
Proof. intros [H1 F1] [H2 F2]. split; congruence. Qed.

Lemma apply_op_keeps_ledger op s s' l :
  touches_ledger l op = false -> apply_op op s = Some s' ->
  ledger_file l s' = ledger_file l s.
Proof.
  intros Ht H. destruct op; cbn [apply_op] in H.
  all: repeat match type of H with
       | match ?x with _ => _ end = _ => destruct x; try discriminate H
       | (if ?x then _ else _) = _ => destruct x; try discriminate H
       end.
  all: injection H as <-; destruct l; try reflexivity.
  all: match goal with l0 : Ledger |- _ => destruct l0 end;
       try discriminate Ht; reflexivity.
Qed.

Lemma keeps_ledger_call l op w :
  touches_ledger l op = false -> keeps_ledger l w (world_of (call op w)).
Proof.
  intros Ht. destruct (call_cases op w) as [[s [_ [Hop ->]]]|[_ ->]];
    cbn [world_of]; (split; [now destruct l|]).
  - cbn [store log]. eapply apply_op_keeps_ledger; eassumption.
  - reflexivity.
Qed.

Lemma keeps_ledger_grows l w w' : keeps_ledger l w w' -> ledger_grows l w w'.
Proof. intros [H F]. split; [rewrite H; apply prefix_refl|now left]. Qed.

Lemma grows_call op w :
  (forall l, touches_ledger l op = false) -> grows w (world_of (call op w)).
Proof.
  intros Ht. split.
  - intros l. apply keeps_ledger_grows, keeps_ledger_call, Ht.
  - destruct (call_cases op w) as [[s [_ [_ ->]]]|[_ ->]]; now split.
Qed.

Lemma grows_open l w : grows w (world_of (call (OpenW l) w)).
Proof.
  destruct (call_cases (OpenW l) w) as [[s [_ [Hop ->]]]|[_ ->]];
    cbn [world_of]; (split; [|split; reflexivity]); intros l';
    (split; [destruct l'; apply prefix_refl|]).
  - cbn [apply_op] in Hop. injection Hop as <-. cbn [store log].
    destruct l, l'; cbn; auto.
  - now left.
Qed.

Lemma grows_dump l w :
  grows w (world_of (call (JsonDump l (history l w)) w)).
Proof.
  destruct (call_cases (JsonDump l (history l w)) w) as [[s [_ [Hop ->]]]|[_ ->]];
    cbn [world_of]; (split; [|split; reflexivity]); intros l';
    (split; [destruct l'; apply prefix_refl|]).
  - cbn [apply_op] in Hop. injection Hop as <-. cbn [store log].
    destruct l, l'; cbn [ledger_file set_ledger_file upload_fp download_fp]; auto.
    + right. right. eexists. split; [reflexivity|]. split; apply prefix_refl.
    + right. right. eexists. split; [reflexivity|]. split; apply prefix_refl.
  - now left.
Qed.

Lemma grows_upload_append x w :
  grows w (world_of (upload_history_append x w)).
Proof.
  split; [|split; reflexivity]. intros l. split; [|now left].
  destruct l; cbn; [apply prefix_app|apply prefix_refl].
Qed.

Lemma grows_download_append x w :
  grows w (world_of (download_history_append x w)).
Proof.
  split; [|split; reflexivity]. intros l. split; [|now left].
  destruct l; cbn; [apply prefix_refl|apply prefix_app].
Qed.

Ltac grows_step :=
  first
    [ apply grows_call; intros []; reflexivity
    | apply grows_open
    | apply grows_upload_append
    | apply grows_download_append
    | apply grows_refl
    | apply (along_bind grows grows_trans); [|intros ? ? ?] ].

Lemma grows_upload_file file w : grows w (world_of (_upload_file file w)).
Proof.
  unfold _upload_file.
  apply (along_bind grows grows_trans); [|intros f w1 _].
  - destruct (contains space file); [|apply grows_refl].
    repeat grows_step.
  - do 4 (apply (along_bind grows grows_trans); [grows_step|intros ? ? _]).
    apply (along_bind grows grows_trans); [apply grows_refl|].
    intros h w' E. unfold read in E. injection E as <- <-.
    apply (along_bind grows grows_trans);
      [apply (grows_dump UploadLedger)|intros ? ? _].
    grows_step.
Qed.

Lemma grows_download_file file w : grows w (world_of (_download_file file w)).
Proof.
  unfold _download_file.
  do 4 (apply (along_bind grows grows_trans); [grows_step|intros ? ? _]).
  apply (along_bind grows grows_trans); [apply grows_refl|].
  intros h w' E. unfold read in E. injection E as <- <-.
  apply (grows_dump DownloadLedger).
Qed.

Lemma grows_loop_body l w : grows w (world_of (loop_body l w)).
Proof.
  destruct l; cbn [loop_body].
  - apply (along_manage_input_body grows grows_refl grows_trans).
    + intros w0. grows_step.
    + apply grows_upload_file.
  - apply (along_check_for_downloads grows grows_refl grows_trans).
    + intros w0. grows_step.
    + apply grows_download_file.
Qed.

(** The upload side leaves the download ledger alone. *)
Lemma upload_file_keeps_download file w :
  keeps_ledger DownloadLedger w (world_of (_upload_file file w)).
Proof.
  pose proof (keeps_ledger_trans DownloadLedger) as T.
  unfold _upload_file.
  repeat first
    [ apply keeps_ledger_call; reflexivity
    | apply keeps_ledger_refl
    | split; reflexivity
    | apply (along_bind _ T); [|intros ? ? _]
    | match goal with |- context [if ?c then _ else _] => destruct c end ].
Qed.

Lemma upload_pass_keeps_download w :
  keeps_ledger DownloadLedger w (world_of (_manage_input_body w)).
Proof.
  apply (along_manage_input_body _ (keeps_ledger_refl _) (keeps_ledger_trans _)).
  - intros w0. now apply keeps_ledger_call.
  - apply upload_file_keeps_download.
Qed.

(** ** The download history has no repetition *)

Lemma download_file_history file w :
  download_history (world_of (_download_file file w)) = download_history w \/
  download_history (world_of (_download_file file w)) = download_history w ++ [file].
Proof.
  run_method _download_file. run_calls; cbn [world_of log download_history]; auto.
Qed.

Lemma NoDup_snoc (x : string) h : NoDup h -> ~ In x h -> NoDup (h ++ [x]).
Proof.
  intros H Hn. apply NoDup_app; [exact H|repeat constructor; intros []|].
  intros a Ha [<-|[]]. contradiction.
Qed.

Lemma downloads_for_NoDup files : forall w,
  NoDup (download_history w) ->
  NoDup (download_history (world_of (_check_for_downloads_for files w))).
Proof.
  induction files as [|f r IH]; intros w H; cbn [_check_for_downloads_for].
  - exact H.
  - unfold bind, read. destruct (mem f (download_history w)) eqn:Hm.
    + unfold ret. now apply IH.
    + apply mem_not_In in Hm.
      assert (H1 : NoDup (download_history (world_of (_download_file f w)))).
      { destruct (download_file_history f w) as [E|E]; rewrite E;
          [exact H|now apply NoDup_snoc]. }
      destruct (_download_file f w) as [[] w1|w1]; cbn [world_of] in *;
        [now apply IH|exact H1].
Qed.

Lemma check_for_downloads_NoDup w :
  NoDup (download_history w) ->
  NoDup (download_history (world_of (_check_for_downloads w))).
Proof.
  intros H. unfold _check_for_downloads, _list_s3_files, bind, read.
  destruct (call_cases S3List w) as [[s [_ [_ ->]]]|[_ ->]]; cbn [world_of].
  - now apply downloads_for_NoDup.
  - exact H.
Qed.

Lemma loop_body_NoDup l w :
  NoDup (download_history w) ->
  NoDup (download_history (world_of (loop_body l w))).
Proof.
  intros H. destruct l; cbn [loop_body].
  - destruct (upload_pass_keeps_download w) as [E _]. cbn [history] in E.
    now rewrite E.
  - now apply check_for_downloads_NoDup.
Qed.

(** ** Starting a process *)

Lemma files_kept_refl w : files_kept w w.
Proof. unfold files_kept. repeat split; auto. Qed.

Lemma files_kept_trans w1 w2 w3 :
  files_kept w1 w2 -> files_kept w2 w3 -> files_kept w1 w3.
Proof.
  intros [A1 [B1 [C1 [D1 [E1 [F1 G1]]]]]] [A2 [B2 [C2 [D2 [E2 [F2 G2]]]]]].
  unfold files_kept. repeat split; try congruence.
  - intros l h H. apply A2, A1, H.
  - intros l h H. destruct (B2 l h H) as [H'|E]; [apply B1, H'|now right].
Qed.

Lemma create_if_missing_keeps l w :
  files_kept w (world_of (create_if_missing l w)).
Proof.
  unfold create_if_missing, bind, read.
  destruct (ledger_file l (store w)) eqn:E; try apply files_kept_refl.
  run_calls; cbn [world_of]; open_ops; unfold files_kept;
    cbn [store log upload_history download_history];
    destruct l; cbn [ledger_file set_ledger_file upload_fp download_fp input_dir
                     archive_dir download_bucket] in *.
  all: repeat split; auto; intros l' h H; destruct l';
    cbn [ledger_file upload_fp download_fp] in *; try congruence; auto.
  all: injection H as <-; now right.
Qed.

Lemma init_tail kw w :
  upload_history w = [] -> download_history w = [] ->
  let r := (up <- json_load UploadLedger ;;
            set_upload_history up ;;
            down <- json_load DownloadLedger ;;
            set_download_history down ;;
            set_sleep_interval (match kw with Some n => n | None => 10 end) ;;
            set_running true) w in
  store (world_of r) = store w /\
  match r with
  | Ret _ w' =>
      (forall l, ledger_file l (store w') = Content (history l w')) /\
      running w' = true /\
      sleep_interval w' = match kw with Some n => n | None => 10 end
  | Raise w' =>
      download_history w' = [] /\
      (upload_history w' = [] \/ upload_fp (store w') = Content (upload_history w'))
  end.
Proof.
  intros Hu Hd. cbv zeta.
  unfold json_load, bind, read, ret, set_upload_history, set_download_history,
    set_sleep_interval, set_running.
  run_calls; cbn [world_of]; cbn [apply_op] in *.
  - cbn [store log] in *.
    destruct (ledger_file UploadLedger (store w)) eqn:Eu; try discriminate.
    injection Hop as <-.
    destruct (ledger_file DownloadLedger (store w)) eqn:Ed; try discriminate.
    injection Hop0 as <-. cbn [store log]. split; [reflexivity|].
    split; [|split; reflexivity].
    intros []; cbn [history upload_history download_history log store];
      rewrite ?Eu, ?Ed; reflexivity.
  - cbn [store log] in *.
    destruct (ledger_file UploadLedger (store w)) eqn:Eu; try discriminate.
    injection Hop as <-. cbn [store log download_history upload_history].
    split; [reflexivity|]. split; [exact Hd|]. right.
    cbn [ledger_file] in *. now rewrite Eu.
  - cbn [store log download_history upload_history].
    split; [reflexivity|]. split; [exact Hd|]. now left.
Qed.

Lemma init_unfold kw w :
  __init__ kw w =
  match create_if_missing UploadLedger w with
  | Ret _ w1 =>
      match create_if_missing DownloadLedger w1 with
      | Ret _ w2 =>
          (up <- json_load UploadLedger ;;
           set_upload_history up ;;
           down <- json_load DownloadLedger ;;
           set_download_history down ;;
           set_sleep_interval (match kw with Some n => n | None => 10 end) ;;
           set_running true) w2
      | Raise w2 => Raise w2
      end
  | Raise w1 => Raise w1
  end.
Proof. reflexivity. Qed.

Lemma init_spec kw st tape :
  (forall l h, ledger_file l st = Content h ->
     ledger_file l (store (world_of (__init__ kw (boot st tape)))) = Content h) /\
  (forall l h,
     ledger_file l (store (world_of (__init__ kw (boot st tape)))) = Content h ->
     ledger_file l st = Content h \/ h = []) /\
  input_dir (store (world_of (__init__ kw (boot st tape)))) = input_dir st /\
  archive_dir (store (world_of (__init__ kw (boot st tape)))) = archive_dir st /\
  download_bucket (store (world_of (__init__ kw (boot st tape)))) = download_bucket st /\
  match __init__ kw (boot st tape) with
  | Ret _ w' =>
      (forall l, ledger_file l (store w') = Content (history l w')) /\
      running w' = true /\
      sleep_interval w' = match kw with Some n => n | None => 10 end
  | Raise w' =>
      download_history w' = [] /\
      (upload_history w' = [] \/ upload_fp (store w') = Content (upload_history w'))
  end.
Proof.
  rewrite init_unfold.
  pose proof (create_if_missing_keeps UploadLedger (boot st tape)) as K1.
  destruct (create_if_missing UploadLedger (boot st tape)) as [[] w1|w1];
    cbn [world_of] in *.
  - pose proof (create_if_missing_keeps DownloadLedger w1) as K2.
    pose proof (files_kept_trans _ _ _ K1 K2) as K.
    destruct (create_if_missing DownloadLedger w1) as [[] w2|w2];
      cbn [world_of] in *.
    + destruct K as [A [B [C [D [E [F G]]]]]].
      destruct (init_tail kw w2 F G) as [Hs Hm]. cbv zeta in Hs, Hm.
      rewrite Hs. do 5 (split; [assumption|]). exact Hm.
    + destruct K as [A [B [C [D [E [F G]]]]]].
      do 5 (split; [assumption|]). split; [exact G|now left].
  - destruct K1 as [A [B [C [D [E [F G]]]]]].
    do 5 (split; [assumption|]). split; [exact G|now left].
Qed.

(** ** Reachable states *)

Lemma ledgers_grow_act l a w pc ldg :
  is_restart a = false ->
  ledger_grows ldg w (fst (act l a (w, pc))).
Proof.
  intros Hr. destruct a as [| |n k|key|kw tape]; try discriminate Hr;
    cbn [act fst snd].
  - destruct pc as [| |[|k]| |]; cbn [thread_step].
    + destruct (running w); apply ledger_grows_refl.
    + pose proof (grows_loop_body l w) as [G _].
      destruct (loop_body l w) as [[] w'|w']; apply G.
    + apply ledger_grows_refl.
    + apply ledger_grows_refl.
    + apply ledger_grows_refl.
    + apply ledger_grows_refl.
  - apply keeps_ledger_grows. split; now destruct ldg.
  - apply keeps_ledger_grows. split; now destruct ldg.
  - apply keeps_ledger_grows. split; now destruct ldg.
Qed.

Lemma ledger_grows_file_extends ldg w w' h h' :
  ledger_grows ldg w w' -> file_behind_memory w ->
  ledger_file ldg (store w) = Content h ->
  ledger_file ldg (store w') = Content h' ->
  prefix h h'.
Proof.
  intros [P [F|[F|[h2 [F [Pa Pb]]]]]] I E E'.
  - rewrite F, E in E'. injection E' as <-. apply prefix_refl.
  - congruence.
  - rewrite F in E'. injection E' as <-.
    eapply prefix_trans; [apply (I ldg h E)|exact Pa].
Qed.

Lemma ledger_grows_keeps_behind w w' :
  (forall ldg, ledger_grows ldg w w') ->
  file_behind_memory w -> file_behind_memory w'.
Proof.
  intros L I l h E. destruct (L l) as [P [F|[F|[h' [F [Pa Pb]]]]]].
  - rewrite F in E. eapply prefix_trans; [apply (I l h E)|exact P].
  - congruence.
  - rewrite F in E. injection E as <-. exact Pb.
Qed.

(** A live thread stays live or dies in a step of its own; nothing else
    changes where it stands. *)
Lemma act_pc_died l a w :
  is_restart a = false -> snd (act l a (w, Died)) = Died.
Proof. intros Hr. destruct a; try discriminate Hr; reflexivity. Qed.

Lemma act_world_died l a w ldg :
  is_restart a = false ->
  keeps_ledger ldg w (fst (act l a (w, Died))).
Proof.
  intros Hr. destruct a; try discriminate Hr; cbn [act fst snd thread_step];
    split; now destruct ldg.
Qed.

Lemma Pc_eq_Died pc : pc = Died \/ pc <> Died.
Proof. destruct pc; (now left) || (right; discriminate). Qed.

Lemma invariant_act l a s :
  download_ledger_unique s -> settled s ->
  download_ledger_unique (act l a s) /\ settled (act l a s).
Proof.
  destruct s as [w pc]. intros [U1 U2] St. unfold settled in St. cbn [fst snd] in *.
  destruct (is_restart a) eqn:Hr.
  - destruct a as [| | | |kw tape]; try discriminate Hr. cbn [act fst].
    destruct (init_spec kw (store w) tape) as [A [B [_ [_ [_ Hm]]]]].
    destruct (__init__ kw (boot (store w) tape)) as [[] w'|w'];
      cbn [world_of] in *; unfold download_ledger_unique, settled;
      cbn [fst snd].
    + destruct Hm as [Hl _]. split; [split|].
      * pose proof (Hl DownloadLedger) as E. cbn [ledger_file history] in E.
        destruct (B DownloadLedger _ E) as [E0|E0]; [now apply U2|].
        rewrite E0. constructor.
      * intros h E. destruct (B DownloadLedger h E) as [E0|E0];
          [now apply U2|rewrite E0; constructor].
      * intros _ ldg h E. rewrite (Hl ldg) in E. injection E as <-.
        apply prefix_refl.
    + destruct Hm as [Hd _]. split; [split|].
      * rewrite Hd. constructor.
      * intros h E. destruct (B DownloadLedger h E) as [E0|E0];
          [now apply U2|rewrite E0; constructor].
      * intros H. now elim H.
  - destruct (Pc_eq_Died pc) as [->|Hlive].
    + split; [split|].
      * destruct (act_world_died l a w DownloadLedger Hr) as [E _].
        cbn [history] in E. now rewrite E.
      * destruct (act_world_died l a w DownloadLedger Hr) as [_ E].
        cbn [ledger_file] in E. rewrite E. exact U2.
      * unfold settled. rewrite act_pc_died by exact Hr. intros H. now elim H.
    + pose proof (fun ldg => ledgers_grow_act l a w pc ldg Hr) as G.
      pose proof (St Hlive) as I.
      assert (N : NoDup (download_history (fst (act l a (w, pc))))).
      { destruct a as [| |n k|key|kw tape]; try discriminate Hr;
          cbn [act fst snd]; try exact U1.
        destruct pc as [| |[|k]| |]; cbn [thread_step]; try exact U1.
        - destruct (running w); exact U1.
        - pose proof (loop_body_NoDup l w U1) as N.
          destruct (loop_body l w) as [[] w'|w']; exact N. }
      split; [split|].
      * exact N.
      * intros h E. destruct (G DownloadLedger) as [_ [F|[F|[h' [F [Pa Pb]]]]]].
        -- cbn [ledger_file] in F. rewrite F in E. now apply U2.
        -- cbn [ledger_file] in F. congruence.
        -- cbn [ledger_file] in F. rewrite F in E. injection E as <-.
           eapply prefix_NoDup; [exact Pb|exact N].
      * intros _. eapply ledger_grows_keeps_behind; [exact G|exact I].
Qed.

Lemma invariant_exec l sched : forall s,
  download_ledger_unique s -> settled s ->
  download_ledger_unique (exec l sched s) /\ settled (exec l sched s).
Proof.
  induction sched as [|a rest IH]; intros s U St; cbn [exec].
  - now split.
  - destruct (invariant_act l a s U St) as [U' St']. now apply IH.
Qed.

Lemma invariant_off st :
  sound_install st -> download_ledger_unique (off st) /\ settled (off st).
Proof.
  intros H. split; [split|].
  - constructor.
  - exact H.
  - intros E. now elim E.
Qed.

(** C9, as stated, fails for the upload ledger.  On a machine with no
    history file the client starts, a file ["x"] arrives and is uploaded,
    recorded and archived; a file ["x"] arrives again and the next pass
    uploads and records it again: the upload history holds ["x"] twice, in
    memory and in its file. *)
Lemma upload_ledger_gets_a_duplicate :
  upload_history
    (fst (exec UploadLoop
            ([Restart None []; Arrive "x" Regular; Step; Step;
              Arrive "x" Regular] ++ repeat Step 13)
            (off fresh_install))) = ["x"; "x"] /\
  upload_fp
    (store (fst (exec UploadLoop
            ([Restart None []; Arrive "x" Regular; Step; Step;
              Arrive "x" Regular] ++ repeat Step 13)
            (off fresh_install)))) = Content ["x"; "x"].
Proof. split; vm_compute; reflexivity. Qed.

(** C9, amended: in every state a client can reach from a machine whose
    download history file holds no repetition (or does not exist), under
    any interleaving of its own steps, signals, arrivals, publications
    and restarts, the download history holds every key at most once, in
    memory and in its file.  Both ledgers are append-only: a step that is
    not a restart extends each history in memory at its end, and when the
    file of a ledger holds a list before and after any step, the list
    before is an initial segment of the list after. *)
Theorem download_ledger_unique_and_ledgers_append_only
  (l : Loop) (st : Store) (sched : list Action) :
  sound_install st ->
  NoDup (download_history (fst (exec l sched (off st)))) /\
  (forall h, download_fp (store (fst (exec l sched (off st)))) = Content h ->
             NoDup h) /\
  (forall a ldg,
     (is_restart a = false ->
      prefix (history ldg (fst (exec l sched (off st))))
             (history ldg (fst (act l a (exec l sched (off st)))))) /\
     (forall h h',
        ledger_file ldg (store (fst (exec l sched (off st)))) = Content h ->
        ledger_file ldg (store (fst (act l a (exec l sched (off st))))) = Content h' ->
        prefix h h')).
Proof.
  intros Hst.
  destruct (invariant_off st Hst) as [U0 S0].
  destruct (invariant_exec l sched (off st) U0 S0) as [[U1 U2] St].
  destruct (exec l sched (off st)) as [w pc]. cbn [fst snd] in *.
  split; [exact U1|]. split; [exact U2|].
  intros a ldg. split.
  - intros Hr. apply (ledgers_grow_act l a w pc ldg Hr).
  - intros h h' E E'. destruct (is_restart a) eqn:Hr.
    + destruct a as [| | | |kw tape]; try discriminate Hr. cbn [act fst snd] in E'.
      destruct (init_spec kw (store w) tape) as [A _].
      pose proof (A ldg h E) as E2.
      revert E'.
      destruct (__init__ kw (boot (store w) tape)) as [[] w'|w'];
        cbn [world_of] in E2; intros E'; cbn [fst] in E'; rewrite E2 in E';
        injection E' as <-; apply prefix_refl.
    + destruct (Pc_eq_Died pc) as [->|Hlive].
      * destruct (act_world_died l a w ldg Hr) as [_ F].
        rewrite F, E in E'. injection E' as <-. apply prefix_refl.
      * eapply ledger_grows_file_extends;
          [apply (ledgers_grow_act l a w pc ldg Hr)|apply St, Hlive|exact E|exact E'].
Qed.

Lemma download_ledger_unique_and_ledgers_append_only_witness :
  NoDup (download_history
           (fst (exec DownloadLoop
                   [Restart None []; Publish "k"; Step; Step; Restart None [];
                    Step; Step]
                   (off fresh_install)))).
Proof.
  assert (H : sound_install fresh_install) by (intros h E; discriminate E).
  exact (proj1 (download_ledger_unique_and_ledgers_append_only DownloadLoop
                  fresh_install _ H)).
Defined.

(** ** Uploads do not read the ledger *)

Lemma can_replace_file d :
  can_replace Regular d = true <-> forall e, d <> Some (Directory e).
Proof.
  destruct d as [[|e]|]; cbn; split; try congruence; try discriminate.
  intros H. now elim (H e).
Qed.

Lemma upload_file_total file w :
  oracle w = [] ->
  dir_lookup file (input_dir (store w)) = Some Regular ->
  (contains space file = true ->
   can_replace Regular (dir_lookup (target file) (input_dir (store w))) = true) ->
  can_replace Regular (dir_lookup (target file) (archive_dir (store w))) = true ->
  exists w' evs,
    _upload_file file w = Ret tt w' /\
    added w w' evs /\
    In (S3Upload (target file) (target file)) (ops evs).
Proof.
  intros Ho Hk Hin Harch. unfold target in *. run_method _upload_file.
  destruct (contains space file) eqn:Hsp; cbn beta iota.
  - specialize (Hin eq_refl).
    quiet_call. cbn [apply_op]. rewrite Hk, Hin. cbn beta iota.
    quiet_call. cbn [apply_op store log input_dir]. rewrite dir_lookup_put_same.
    cbn beta iota.
    quiet_call. cbn [apply_op store log input_dir]. rewrite dir_lookup_put_same.
    cbn beta iota.
    quiet_call. cbn [apply_op]. cbn beta iota.
    quiet_call. cbn [apply_op]. cbn beta iota.
    quiet_call.
    cbn [apply_op store log input_dir archive_dir set_ledger_file].
    rewrite dir_lookup_put_same, Harch.
    eexists; eexists; split; [reflexivity|].
    split; [show_added|cbn; tauto].
  - clear Hin.
    quiet_call. cbn [apply_op]. rewrite Hk. cbn beta iota.
    quiet_call. cbn [apply_op store log input_dir]. rewrite Hk.
    cbn beta iota.
    quiet_call. cbn [apply_op]. cbn beta iota.
    quiet_call. cbn [apply_op]. cbn beta iota.
    quiet_call.
    cbn [apply_op store log input_dir archive_dir set_ledger_file].
    rewrite Hk, Harch.
    eexists; eexists; split; [reflexivity|].
    split; [show_added|cbn; tauto].
Qed.

(** ** Downloads within the life of a process *)

Lemma upload_pass_no_download h : emits (no_download_of h) _manage_input_body.
Proof.
  apply emits_manage_input_body; [intros ok s k E; discriminate E|].
  intros file. unfold _upload_file.
  repeat first
    [ apply emits_bind; [|intros ?]
    | apply emits_call; intros ok s k E; discriminate E
    | apply emits_ret
    | apply emits_read
    | match goal with |- context [if ?c then _ else _] => destruct c end
    | intros w; exists []; split;
      [unfold added; cbn; now rewrite app_nil_r|constructor] ].
Qed.

Lemma download_pass_no_recorded w :
  exists evs, added w (world_of (_check_for_downloads w)) evs /\
    Forall (no_download_of (download_history w)) evs.
Proof.
  unfold _check_for_downloads, _list_s3_files, bind, read.
  destruct (call_cases S3List w) as [[s [_ [_ ->]]]|[_ ->]]; cbn [world_of].
  - set (w1 := log S3List true s w).
    destruct (downloads_for_events (first_page (download_bucket (store w1))) w1)
      as [evs [Ha Hk]].
    exists (mkEvent S3List true s :: evs). split.
    + apply (added_trans w w1 _ [_] evs); [show_added|exact Ha].
    + constructor; [intros k E; discriminate E|].
      apply Forall_forall. intros e HIn k E.
      destruct (Hk e k HIn E) as [_ [Hn _]]. exact Hn.
  - eexists. split; [show_added|]. repeat constructor. intros k E. discriminate E.
Qed.

Lemma loop_body_no_recorded l w :
  exists evs, added w (world_of (loop_body l w)) evs /\
    Forall (no_download_of (download_history w)) evs.
Proof.
  destruct l; [apply upload_pass_no_download|apply download_pass_no_recorded].
Qed.

Lemma act_no_recorded l a w pc :
  is_restart a = false ->
  exists evs, added w (fst (act l a (w, pc))) evs /\
    Forall (no_download_of (download_history w)) evs.
Proof.
  intros Hr.
  assert (Q : forall w', trace w' = trace w ->
              exists evs, added w w' evs /\
                Forall (no_download_of (download_history w)) evs).
  { intros w' E. exists []. split; [|constructor].
    unfold added. now rewrite app_nil_r. }
  destruct a as [| |n k|key|kw tape]; try discriminate Hr;
    cbn [act fst snd]; try (apply Q; reflexivity).
  destruct pc as [| |[|k]| |]; cbn [thread_step]; try (apply Q; reflexivity).
  - destruct (running w); apply Q; reflexivity.
  - destruct (loop_body_no_recorded l w) as [evs [Ha F]].
    exists evs. split; [|exact F].
    destruct (loop_body l w) as [[] w'|w']; exact Ha.
Qed.

Lemma exec_no_recorded l sched : forall s,
  no_restart sched = true ->
  exists evs, added (fst s) (fst (exec l sched s)) evs /\
    Forall (no_download_of (download_history (fst s))) evs.
Proof.
  induction sched as [|a rest IH]; intros [w pc] Hn; cbn [exec fst].
  - exists []. split; [apply added_refl|constructor].
  - cbn [no_restart forallb] in Hn. apply andb_prop in Hn. destruct Hn as [Ha Hrest].
    apply negb_true_iff in Ha.
    destruct (act_no_recorded l a w pc Ha) as [e1 [A1 F1]].
    pose proof (ledgers_grow_act l a w pc DownloadLedger Ha) as [P _].
    cbn [history] in P.
    destruct (act l a (w, pc)) as [w1 pc1] eqn:E. cbn [fst] in *.
    destruct (IH (w1, pc1) Hrest) as [e2 [A2 F2]]. cbn [fst] in *.
    exists (e1 ++ e2). split; [eapply added_trans; eassumption|].
    apply Forall_app. split; [exact F1|].
    eapply Forall_impl; [|exact F2]. intros e He k Hk HIn.
    apply (He k Hk). destruct P as [x ->]. apply in_or_app. now left.
Qed.

Lemma init_loads kw st tape w0 :
  __init__ kw (boot st tape) = Ret tt w0 ->
  forall ldg h, ledger_file ldg st = Content h -> history ldg w0 = h.
Proof.
  intros Hi ldg h E.
  destruct (init_spec kw st tape) as [A [_ [_ [_ [_ Hm]]]]].
  rewrite Hi in *. cbn [world_of] in *. destruct Hm as [Hl _].
  pose proof (A ldg h E) as E1. rewrite (Hl ldg) in E1. now injection E1.
Qed.

(** C3, as stated, fails for uploads.  On a machine with no history file
    the client starts, ["x"] arrives, is uploaded and recorded, and the
    move into the archive raises, which ends the process with ["x"] in the
    upload history file and still in the input folder.  The client is
    started again and loads a history holding ["x"]; its first pass
    uploads ["x"] again and records it a second time. *)
Lemma recorded_file_is_uploaded_again :
  upload_history
    (fst (exec UploadLoop
            [Restart None (repeat false 11 ++ [true]); Arrive "x" Regular;
             Step; Step; Restart None []]
            (off fresh_install))) = ["x"] /\
  ops (trace
    (fst (exec UploadLoop
            [Restart None (repeat false 11 ++ [true]); Arrive "x" Regular;
             Step; Step; Restart None []; Step; Step]
            (off fresh_install)))) =
  [JsonLoad UploadLedger; JsonLoad DownloadLedger; Glob; OsStat "x";
   S3Upload "x" "x"; OpenW UploadLedger; JsonDump UploadLedger ["x"; "x"];
   OsArchive "x"].
Proof. split; vm_compute; reflexivity. Qed.

(** C3, amended: a client that starts loads the lists its history files
    hold; within the life of that process, under any interleaving of steps
    of either loop, signals, arrivals and publications, no download is
    called for a key of the loaded download history, nor for any key that
    was in the download history at an earlier point.  The upload loop does
    not consult the upload history: a file whose upload returned is no
    longer in the input folder, which is what keeps it from being uploaded
    again, and a regular file that is in the input folder is uploaded
    whatever the upload history holds (when no call raises from outside
    and no folder stands, under its name without spaces, in the input
    folder or in the archive). *)
Theorem recorded_keys_are_not_downloaded_again :
  (forall l kw st tape w0 h sched,
     __init__ kw (boot st tape) = Ret tt w0 ->
     download_fp st = Content h ->
     no_restart sched = true ->
     download_history w0 = h /\
     exists evs, added w0 (fst (exec l sched (w0, AtWhile))) evs /\
       Forall (no_download_of h) evs) /\
  (forall l sched s,
     no_restart sched = true ->
     exists evs, added (fst s) (fst (exec l sched s)) evs /\
       Forall (no_download_of (download_history (fst s))) evs) /\
  (forall kw st tape w0 h,
     __init__ kw (boot st tape) = Ret tt w0 ->
     upload_fp st = Content h -> upload_history w0 = h) /\
  (forall file w w',
     _upload_file file w = Ret tt w' ->
     ~ In (target file) (names (input_dir (store w')))) /\
  (forall file w,
     oracle w = [] ->
     dir_lookup file (input_dir (store w)) = Some Regular ->
     (forall e, dir_lookup (target file) (input_dir (store w))
                <> Some (Directory e)) ->
     (forall e, dir_lookup (target file) (archive_dir (store w))
                <> Some (Directory e)) ->
     exists w' evs,
       _upload_file file w = Ret tt w' /\ added w w' evs /\
       In (S3Upload (target file) (target file)) (ops evs)).
Proof.
  split; [|split; [|split; [|split]]].
  - intros l kw st tape w0 h sched Hi Hf Hn.
    pose proof (init_loads kw st tape w0 Hi DownloadLedger h Hf) as Hh.
    cbn [history] in Hh. split; [exact Hh|].
    destruct (exec_no_recorded l sched (w0, AtWhile) Hn) as [evs [Ha F]].
    cbn [fst] in *. rewrite Hh in F. now exists evs.
  - intros l sched s Hn. now apply exec_no_recorded.
  - intros kw st tape w0 h Hi Hf.
    apply (init_loads kw st tape w0 Hi UploadLedger h Hf).
  - intros file w w' Hr.
    destruct (upload_file_ret file w w' Hr) as [k [_ [_ [_ [_ [Hi _]]]]]].
    rewrite dir_lookup_names. now rewrite Hi.
  - intros file w Ho Hk Hin Harch.
    apply (upload_file_total file w Ho Hk).
    + intros _. now apply can_replace_file.
    + now apply can_replace_file.
Qed.

Lemma recorded_keys_are_not_downloaded_again_witness :
  download_history
    (world_of (__init__ None (boot two_keys_one_recorded []))) = ["a.txt"] /\
  exists evs,
    added (world_of (__init__ None (boot two_keys_one_recorded [])))
          (fst (exec DownloadLoop [Step; Step; Publish "a.txt"; Step]
                  (world_of (__init__ None (boot two_keys_one_recorded [])),
                   AtWhile)))
          evs /\
    Forall (no_download_of ["a.txt"]) evs.
Proof.
  assert (Hi : __init__ None (boot two_keys_one_recorded [])
               = Ret tt (world_of (__init__ None (boot two_keys_one_recorded []))))
    by (vm_compute; reflexivity).
  exact (proj1 recorded_keys_are_not_downloaded_again DownloadLoop None
           two_keys_one_recorded [] _ ["a.txt"]
           [Step; Step; Publish "a.txt"; Step] Hi eq_refl eq_refl).
Defined.

(** ** After the flag is cleared *)

Lemma act_cleared l a s :
  running (fst s) = false -> is_restart a = false ->
  running (fst (act l a s)) = false /\
  sleep_interval (fst (act l a s)) = sleep_interval (fst s) /\
  (snd s <> InBody -> trace (fst (act l a s)) = trace (fst s)) /\
  match a, snd s with
  | Step, InBody => 1
  | _, _ => 0
  end + passes_left (snd (act l a s)) <= passes_left (snd s) /\
  match a, snd s with
  | Step, Sleeping (S _) => 1
  | _, _ => 0
  end + sleep_left (act l a s) <= sleep_left s /\
  match a with Step => 1 | _ => 0 end + steps_left (act l a s)
  <= match a with Step => 1 | _ => 0 end + steps_left s /\
  (a = Step -> 1 + steps_left (act l a s) <= steps_left s \/ stopped (snd s) = true) /\
  (stopped (snd s) = true -> stopped (snd (act l a s)) = true).
Proof.
  destruct s as [w pc]. cbn [fst snd]. intros Hrun Hr.
  destruct a as [| |n k|key|kw tape]; try discriminate Hr; cbn [act fst snd].
  - destruct pc as [| |[|k]| |]; cbn [thread_step].
    + rewrite Hrun. cbn. repeat split; auto; lia.
    + pose proof (grows_loop_body l w) as [_ [Gr Gs]].
      destruct (loop_body l w) as [[] w'|w']; cbn [world_of fst snd] in *;
        unfold sleep_left, steps_left, passes_left; cbn [fst snd stopped];
        rewrite ?Gs; repeat split; try congruence; try lia.
      all: try (intros H; now elim H).
      all: left; lia.
    + cbn. repeat split; auto; lia.
    + cbn. repeat split; auto; lia.
    + cbn. repeat split; auto; lia.
    + cbn. repeat split; auto; lia.
  - unfold sleep_left, steps_left. cbn. repeat split; auto; try lia.
    intros E; discriminate E.
  - unfold sleep_left, steps_left. cbn. repeat split; auto; try lia.
    intros E; discriminate E.
  - unfold sleep_left, steps_left. cbn. repeat split; auto; try lia.
    intros E; discriminate E.
Qed.

Lemma exec_cleared l sched : forall s,
  running (fst s) = false -> no_restart sched = true ->
  running (fst (exec l sched s)) = false /\
  (snd s <> InBody -> trace (fst (exec l sched s)) = trace (fst s)) /\
  passes l sched s <= passes_left (snd s) /\
  slept l sched s <= sleep_left s /\
  (steps_left s <= count_steps sched -> stopped (snd (exec l sched s)) = true).
Proof.
  induction sched as [|a rest IH]; intros s Hrun Hn.
  - cbn [exec passes slept count_steps]. split; [exact Hrun|].
    split; [reflexivity|]. split; [lia|]. split; [lia|].
    intros H. destruct s as [w [| |k| |]]; cbn in *; try reflexivity; lia.
  - cbn [no_restart forallb] in Hn. apply andb_prop in Hn.
    destruct Hn as [Ha Hrest]. apply negb_true_iff in Ha.
    destruct (act_cleared l a s Hrun Ha)
      as [Hrun1 [Hsi [Htr [Hp [Hs [_ [Hst Hstop]]]]]]].
    destruct (IH (act l a s) Hrun1 Hrest) as [R [T [P [S St]]]].
    cbn [exec passes slept]. split; [exact R|]. split; [|split; [|split]].
    + intros Hpc. rewrite <- (Htr Hpc). apply T.
      intros E. assert (Hz : passes_left (snd (act l a s)) = 0).
      { destruct (snd s); try (now elim Hpc); cbn [passes_left] in Hp;
          destruct a; lia. }
      rewrite E in Hz. discriminate Hz.
    + lia.
    + lia.
    + intros Hc. destruct a as [| |n k|key|kw tape]; try discriminate Ha;
        cbn [count_steps] in Hc.
      * destruct (Hst eq_refl) as [Hd|Hd].
        -- apply St. lia.
        -- apply St. pose proof (Hstop Hd) as Hd1.
           destruct (act l Step s) as [w1 [| |k| |]]; cbn in *;
             try discriminate Hd1; lia.
      * apply St. cbn [act snd fst steps_left] in *.
        unfold steps_left in *. cbn [fst snd world_of set_running sleep_interval] in *.
        exact Hc.
      * apply St. unfold steps_left in *. cbn [act fst snd with_store sleep_interval] in *.
        exact Hc.
      * apply St. unfold steps_left in *. cbn [act fst snd with_store sleep_interval] in *.
        exact Hc.
Qed.

(** C5, as stated, fails in its last part: the signal does not interrupt
    the sleep.  The client starts on an idle machine, runs one pass and
    goes to sleep for ten seconds; the signal arrives; one second later
    either loop is still asleep with nine seconds to go, after eleven
    steps it is back at the loop test, and only the twelfth step ends it. *)
Lemma signal_does_not_interrupt_the_sleep :
  (snd (exec UploadLoop ([Restart None []; Step; Step; Signal] ++ repeat Step 1)
          (off fresh_install)) = Sleeping 9 /\
   snd (exec UploadLoop ([Restart None []; Step; Step; Signal] ++ repeat Step 11)
          (off fresh_install)) = AtWhile /\
   snd (exec UploadLoop ([Restart None []; Step; Step; Signal] ++ repeat Step 12)
          (off fresh_install)) = Returned) /\
  (snd (exec DownloadLoop ([Restart None []; Step; Step; Signal] ++ repeat Step 1)
          (off fresh_install)) = Sleeping 9 /\
   snd (exec DownloadLoop ([Restart None []; Step; Step; Signal] ++ repeat Step 11)
          (off fresh_install)) = AtWhile /\
   snd (exec DownloadLoop ([Restart None []; Step; Step; Signal] ++ repeat Step 12)
          (off fresh_install)) = Returned).
Proof. repeat split; vm_compute; reflexivity. Qed.

(** C5, amended: each loop reads the flag at the top of every pass, which
    is also where it resumes after waking, and nowhere else; the signal
    clears the flag and leaves the thread where it stands.  Once the flag
    is cleared it stays cleared for the life of the process, and a loop
    then runs at most the pass it is in, makes no call at all if it is not
    inside a pass, sleeps at most one full [sleep_interval] (the rest of
    its sleep if it is asleep), and has returned or died once it has taken
    that many steps.  The sleep is the only place where the thread waits:
    it is a blocking sleep that counts its seconds down to the end,
    whatever the flag. *)
Theorem cleared_flag_ends_both_loops (l : Loop) :
  (forall w, thread_step l (w, AtWhile)
             = (w, if running w then InBody else Returned)) /\
  (forall w, thread_step l (w, Sleeping 0) = (w, AtWhile)) /\
  (forall w k, thread_step l (w, Sleeping (S k)) = (w, Sleeping k)) /\
  (forall w w' pc', thread_step l (w, InBody) = (w', pc') ->
                    pc' = Sleeping (sleep_interval w) \/ pc' = Died) /\
  (forall w pc, running (fst (act l Signal (w, pc))) = false /\
                snd (act l Signal (w, pc)) = pc) /\
  (forall s sched,
     running (fst s) = false -> no_restart sched = true ->
     running (fst (exec l sched s)) = false /\
     (snd s <> InBody -> trace (fst (exec l sched s)) = trace (fst s)) /\
     passes l sched s <= passes_left (snd s) /\
     slept l sched s <= sleep_left s /\
     (steps_left s <= count_steps sched ->
      stopped (snd (exec l sched s)) = true)).
Proof.
  split; [|split; [|split; [|split; [|split]]]].
  - intros w. cbn [thread_step]. now destruct (running w).
  - reflexivity.
  - reflexivity.
  - intros w w' pc'. cbn [thread_step].
    pose proof (grows_loop_body l w) as [_ [_ Gs]].
    destruct (loop_body l w) as [[] w1|w1]; cbn [world_of] in Gs;
      intros E; injection E as <- <-; [left; now rewrite Gs|now right].
  - intros w pc. now split.
  - intros s sched. apply exec_cleared.
Qed.

Lemma cleared_flag_ends_both_loops_witness :
  stopped (snd (exec UploadLoop (repeat Step 12) signalled_asleep)) = true /\
  slept UploadLoop (repeat Step 12) signalled_asleep <= 10.
Proof.
  destruct (proj2 (proj2 (proj2 (proj2 (proj2
              (cleared_flag_ends_both_loops UploadLoop)))))
              signalled_asleep (repeat Step 12) eq_refl eq_refl)
    as [_ [_ [_ [Hs Hstop]]]].
  split; [|exact Hs].
  apply Hstop. cbn. lia.
Defined.


(** * Further properties of the methods *)

(** ** What a returned upload leaves *)

Lemma dir_remove_app n d1 d2 :
  dir_remove n (d1 ++ d2) = dir_remove n d1 ++ dir_remove n d2.
Proof.
  induction d1 as [|[m k] r IH]; simpl; [reflexivity|].
  destruct (String.eqb n m); simpl; now rewrite IH.
Qed.

Lemma dir_remove_twice n d : dir_remove n (dir_remove n d) = dir_remove n d.
Proof.
  induction d as [|[m k] r IH]; simpl; [reflexivity|].
  destruct (String.eqb n m) eqn:E; [exact IH|]. simpl. now rewrite E, IH.
Qed.

Lemma dir_remove_put n k d : dir_remove n (dir_put n k d) = dir_remove n d.
Proof.
  unfold dir_put. rewrite dir_remove_app, dir_remove_twice. simpl.
  rewrite String.eqb_refl. apply app_nil_r.
Qed.

Lemma names_remove m n d :
  In m (names (dir_remove n d)) <-> In m (names d) /\ m <> n.
Proof.
  rewrite !dir_lookup_names. destruct (string_dec m n) as [->|Hne].
  - rewrite dir_lookup_remove_same. tauto.
  - rewrite dir_lookup_remove_other by assumption. tauto.
Qed.


Lemma upload_file_ret_store file w w' :
  _upload_file file w = Ret tt w' ->
  exists k,
    dir_lookup file (input_dir (store w)) = Some k /\
    store w' = uploaded file k (upload_history w) (store w) /\
    upload_history w' = upload_history w ++ [target file] /\
    download_history w' = download_history w /\
    oracle w' = tl (tl (tl (tl (tl (if contains space file
                                     then tl (oracle w) else oracle w))))).
Proof.
  run_method _upload_file. unfold uploaded, target, bucket_put.
  destruct (contains space file) eqn:Hsp; cbn beta iota.
  - run_calls; try discriminate.
    intros E. injection E as <-. forget_faults. open_ops.
    rewrite dir_lookup_put_same in Hlook. injection Hlook as <-.
    exists k2. split; [reflexivity|]. rewrite dir_remove_put.
    repeat split.
  - run_calls; try discriminate.
    intros E. injection E as <-. forget_faults. open_ops.
    rewrite Hlook1 in Hlook. injection Hlook as <-.
    exists k1. split; [reflexivity|]. rewrite dir_remove_twice.
    repeat split.
Qed.

Lemma upload_missing file w :
  dir_lookup file (input_dir (store w)) = None ->
  exists w' e,
    _upload_file file w = Raise w' /\
    store w' = store w /\
    upload_history w' = upload_history w /\
    download_history w' = download_history w /\
    trace w' = trace w ++ [e] /\
    ev_ok e = false /\
    (ev_op e = OsStat file \/ ev_op e = OsRename file (target file)).
Proof.
  intros Hk. run_method _upload_file. unfold target.
  destruct (contains space file) eqn:Hsp; cbn beta iota.
  - destruct (call_cases (OsRename file (replace space underscore file)) w)
      as [[s [_ [Hop _]]]|[_ Hc]].
    + cbn [apply_op] in Hop. rewrite Hk in Hop. discriminate Hop.
    + rewrite Hc. eexists. eexists. split; [reflexivity|].
      cbn [store log upload_history download_history trace ev_ok ev_op].
      repeat split. now right.
  - destruct (call_cases (OsStat file) w) as [[s [_ [Hop _]]]|[_ Hc]].
    + cbn [apply_op] in Hop. rewrite Hk in Hop. discriminate Hop.
    + rewrite Hc. eexists. eexists. split; [reflexivity|].
      cbn [store log upload_history download_history trace ev_ok ev_op].
      repeat split. now left.
Qed.

Lemma uploaded_input_lacks file k h st n :
  In n (names (input_dir (uploaded file k h st))) ->
  In n (names (input_dir st)) /\ n <> file /\ n <> target file.
Proof.
  unfold uploaded. cbn [input_dir]. rewrite !names_remove. tauto.
Qed.

(** X1: an upload for a name that is not in the input folder raises at its
    first call and leaves the persistent state and both histories as
    they were; in particular, once an upload has returned, an upload of the
    name it was archived under raises in this way, and so does a second
    upload of the name it was found under. *)
Theorem upload_of_an_absent_file_changes_nothing :
  (forall file w,
     dir_lookup file (input_dir (store w)) = None ->
     exists w' e,
       _upload_file file w = Raise w' /\
       store w' = store w /\
       upload_history w' = upload_history w /\
       download_history w' = download_history w /\
       trace w' = trace w ++ [e] /\ ev_ok e = false) /\
  (forall file again w w1,
     _upload_file file w = Ret tt w1 ->
     again = file \/ again = target file ->
     exists w2,
       _upload_file again w1 = Raise w2 /\
       store w2 = store w1 /\
       upload_history w2 = upload_history w1).
Proof.
  split.
  - intros file w Hk.
    destruct (upload_missing file w Hk) as [w' [e [H1 [H2 [H3 [H4 [H5 [H6 _]]]]]]]].
    exists w', e. repeat split; assumption.
  - intros file again w w1 Hr Hag.
    destruct (upload_file_ret_store file w w1 Hr) as [k [_ [Hs _]]].
    assert (Hk : dir_lookup again (input_dir (store w1)) = None).
    { destruct (dir_lookup again (input_dir (store w1))) eqn:E; [|reflexivity].
      assert (HIn : In again (names (input_dir (store w1)))).
      { apply dir_lookup_names. rewrite E. discriminate. }
      rewrite Hs in HIn. apply uploaded_input_lacks in HIn.
      destruct HIn as [_ [N1 N2]]. destruct Hag; contradiction. }
    destruct (upload_missing again w1 Hk) as [w2 [e [H1 [H2 [H3 _]]]]].
    exists w2. repeat split; assumption.
Qed.

Lemma upload_of_an_absent_file_changes_nothing_witness :
  exists w2,
    _upload_file "a_b" (world_of (_upload_file "a b" (idle one_spaced_file [])))
    = Raise w2 /\
    store w2 = store (world_of (_upload_file "a b" (idle one_spaced_file []))).
Proof.
  assert (H : _upload_file "a b" (idle one_spaced_file [])
              = Ret tt (world_of (_upload_file "a b" (idle one_spaced_file []))))
    by (vm_compute; reflexivity).
  destruct (proj2 upload_of_an_absent_file_changes_nothing "a b" "a_b" _ _ H
              (or_intror eq_refl)) as [w2 [H1 [H2 _]]].
  exists w2. split; assumption.
Defined.

(** X2: when no call raises from outside, the upload of a regular file
    that is in the input folder returns, provided no folder stands under
    its name without spaces in the input folder or in the archive (a
    rename onto a folder raises); it leaves the file, under its name
    without spaces, in the archive and no longer in the input folder, the
    key in the upload bucket, the name at the end of the upload history
    and that history in its file; everything of the download side is as it
    was. *)
Theorem upload_returns_when_nothing_raises (file : string) (w : World) :
  oracle w = [] ->
  dir_lookup file (input_dir (store w)) = Some Regular ->
  (forall e, dir_lookup (target file) (input_dir (store w))
             <> Some (Directory e)) ->
  (forall e, dir_lookup (target file) (archive_dir (store w))
             <> Some (Directory e)) ->
  exists w',
    _upload_file file w = Ret tt w' /\
    store w' = uploaded file Regular (upload_history w) (store w) /\
    upload_history w' = upload_history w ++ [target file] /\
    download_history w' = download_history w /\
    oracle w' = [] /\
    dir_lookup (target file) (archive_dir (store w')) = Some Regular /\
    dir_lookup file (input_dir (store w')) = None /\
    dir_lookup (target file) (input_dir (store w')) = None /\
    In (target file) (upload_bucket (store w')).
Proof.
  intros Ho Hk Hin Harch.
  destruct (upload_file_total file w Ho Hk) as [w' [evs [Hr _]]].
  { intros _. now apply can_replace_file. }
  { now apply can_replace_file. }
  destruct (upload_file_ret_store file w w' Hr) as [k' [Hk' [Hs [Hh [Hd Hor]]]]].
  rewrite Hk in Hk'. injection Hk' as <-.
  exists w'. split; [exact Hr|]. split; [exact Hs|]. split; [exact Hh|].
  split; [exact Hd|]. split.
  { rewrite Hor, Ho. now destruct (contains space file). }
  rewrite Hs. unfold uploaded. cbn [archive_dir input_dir upload_bucket].
  split; [apply dir_lookup_put_same|]. split; [|split].
  - destruct (dir_lookup file (dir_remove (target file) (dir_remove file (input_dir (store w))))) eqn:E;
      [|reflexivity].
    assert (HIn : In file (names (dir_remove (target file) (dir_remove file (input_dir (store w)))))).
    { apply dir_lookup_names. rewrite E. discriminate. }
    rewrite !names_remove in HIn. tauto.
  - apply dir_lookup_remove_same.
  - unfold bucket_put. destruct (mem (target file) (upload_bucket (store w))) eqn:E.
    + now apply mem_In.
    + apply in_or_app. right. now left.
Qed.

Lemma upload_returns_when_nothing_raises_witness :
  exists w',
    _upload_file "a b" (idle one_spaced_file []) = Ret tt w' /\
    store w' = uploaded "a b" Regular [] one_spaced_file.
Proof.
  destruct (upload_returns_when_nothing_raises "a b"
              (idle one_spaced_file []) eq_refl eq_refl) as [w' [H1 [H2 _]]].
  - intros e H. discriminate H.
  - intros e H. discriminate H.
  - exists w'. split; assumption.
Defined.


(** ** A pass of the upload loop that returns *)

Lemma bind_ret_inv {A B} (m : M A) (f : A -> M B) w b w2 :
  bind m f w = Ret b w2 -> exists a w1, m w = Ret a w1 /\ f a w1 = Ret b w2.
Proof.
  unfold bind. destruct (m w) as [a w1|w1]; [eauto|discriminate].
Qed.






(** ** A pass of the download loop that returns *)

Lemma downloads_for_skip files : forall w,
  (forall f, In f files -> In f (download_history w)) ->
  _check_for_downloads_for files w = Ret tt w.
Proof.
  induction files as [|f r IH]; intros w H; cbn [_check_for_downloads_for].
  - reflexivity.
  - unfold bind, read.
    assert (Hm : mem f (download_history w) = true).
    { apply mem_In. apply H. now left. }
    rewrite Hm. unfold ret. apply IH. intros g Hg. apply H. now right.
Qed.

Lemma check_for_downloads_unfold w :
  _check_for_downloads w =
  match call S3List w with
  | Ret _ w1 =>
      _check_for_downloads_for (first_page (download_bucket (store w1))) w1
  | Raise w1 => Raise w1
  end.
Proof.
  unfold _check_for_downloads, _list_s3_files, bind, read.
  now destruct (call S3List w).
Qed.

(** X4: when a pass of the download loop has returned, every key of the
    listing (the first [max_keys] keys of the bucket) is in the download
    history, and the next pass over the same bucket makes the listing call
    and nothing else: it downloads nothing, leaves the persistent state and
    the history as they are, and returns unless the listing raises. *)
Theorem second_download_pass_downloads_nothing (w w1 : World) :
  _check_for_downloads w = Ret tt w1 ->
  download_bucket (store w1) = download_bucket (store w) /\
  (forall k, In k (first_page (download_bucket (store w1))) ->
             In k (download_history w1)) /\
  store (world_of (_check_for_downloads w1)) = store w1 /\
  download_history (world_of (_check_for_downloads w1)) = download_history w1 /\
  (exists e, trace (world_of (_check_for_downloads w1)) = trace w1 ++ [e] /\
             ev_op e = S3List /\
             ev_ok e = returned (_check_for_downloads w1)).
Proof.
  rewrite check_for_downloads_unfold. intros H.
  destruct (call_cases S3List w) as [[s [_ [Hop Hc]]]|[_ Hc]];
    rewrite Hc in H; [|discriminate H].
  cbn [apply_op] in Hop. injection Hop as <-. cbn [store log] in H.
  destruct (downloads_for_ret _ _ _ H)
    as [evs [_ [Hd [Hh [_ [_ [_ [_ [Hb _]]]]]]]]].
  cbn [store log download_history] in *.
  assert (Hall : forall k, In k (first_page (download_bucket (store w1))) ->
                           In k (download_history w1)).
  { intros k Hk. rewrite Hb in Hk. rewrite Hh, Hd. apply in_or_app.
    destruct (mem k (download_history w)) eqn:Hm.
    - left. now apply mem_In.
    - right. apply fresh_keys_In. split; [exact Hk|now apply mem_not_In]. }
  split; [exact Hb|]. split; [exact Hall|].
  rewrite check_for_downloads_unfold.
  destruct (call_cases S3List w1) as [[s [_ [Hop Hc1]]]|[_ Hc1]]; rewrite Hc1.
  - cbn [apply_op] in Hop. injection Hop as <-. cbn [store log].
    rewrite downloads_for_skip by exact Hall.
    cbn [world_of store log download_history trace returned].
    repeat split. eexists. repeat split.
  - cbn [world_of store log download_history trace returned].
    repeat split. eexists. repeat split.
Qed.

Lemma second_download_pass_downloads_nothing_witness :
  store (world_of (_check_for_downloads
           (world_of (_check_for_downloads (idle two_files [])))))
  = store (world_of (_check_for_downloads (idle two_files []))).
Proof.
  assert (H : _check_for_downloads (idle two_files [])
              = Ret tt (world_of (_check_for_downloads (idle two_files []))))
    by (vm_compute; reflexivity).
  destruct (second_download_pass_downloads_nothing _ _ H) as [_ [_ [Hs _]]].
  exact Hs.
Defined.


(** ** Between passes the files hold the histories *)

Lemma synced_upload_files files : forall w w',
  synced UploadLedger w -> _upload_files files w = Ret tt w' ->
  synced UploadLedger w'.
Proof.
  induction files as [|f r IH]; intros w w' P; cbn [_upload_files].
  - unfold ret. intros E. now injection E as <-.
  - intros H. apply bind_ret_inv in H. destruct H as [[] [w1 [Hf Hr]]].
    eapply IH; [|exact Hr].
    destruct (upload_file_ret_store f w w1 Hf) as [k [_ [Hs [Hh _]]]].
    unfold synced. cbn [ledger_file history]. rewrite Hs, Hh. reflexivity.
Qed.

Lemma synced_downloads_for files : forall w w',
  synced DownloadLedger w -> _check_for_downloads_for files w = Ret tt w' ->
  synced DownloadLedger w'.
Proof.
  induction files as [|f r IH]; intros w w' P; cbn [_check_for_downloads_for].
  - unfold ret. intros E. now injection E as <-.
  - unfold bind at 1. unfold read. cbn beta iota. intros H.
    apply bind_ret_inv in H. destruct H as [[] [w1 [Hf Hr]]].
    eapply IH; [|exact Hr].
    destruct (mem f (download_history w)).
    + unfold ret in Hf. now injection Hf as <-.
    + destruct (download_file_ret f w w1 Hf) as [_ [Hh [Hfp _]]].
      unfold synced. cbn [ledger_file history]. now rewrite Hfp, Hh.
Qed.

Lemma own_ledger_synced l w w' :
  synced (ledger_of l) w -> loop_body l w = Ret tt w' ->
  synced (ledger_of l) w'.
Proof.
  intros P. destruct l; cbn [loop_body ledger_of] in *.
  - unfold _manage_input_body, _check_input_files. intros H.
    apply bind_ret_inv in H. destruct H as [files [w0 [Hscan Hup]]].
    apply bind_ret_inv in Hscan. destruct Hscan as [[] [wg [Hg Hread]]].
    unfold read in Hread. injection Hread as <- <-.
    destruct (call_cases Glob w) as [[s [_ [Hop Hc]]]|[_ Hc]];
      rewrite Hc in Hg; [|discriminate Hg].
    injection Hg as <-. cbn [apply_op] in Hop. injection Hop as <-.
    assert (P0 : synced UploadLedger (log Glob true (store w) w)) by exact P.
    destruct (names (input_dir (store (log Glob true (store w) w)))) as [|f r] eqn:E.
    + unfold ret in Hup. now injection Hup as <-.
    + eapply synced_upload_files; eassumption.
  - rewrite check_for_downloads_unfold. intros H.
    destruct (call_cases S3List w) as [[s [_ [Hop Hc]]]|[_ Hc]];
      rewrite Hc in H; [|discriminate H].
    cbn [apply_op] in Hop. injection Hop as <-.
    eapply synced_downloads_for; [|exact H]. exact P.
Qed.

Lemma download_file_keeps_upload file w :
  keeps_ledger UploadLedger w (world_of (_download_file file w)).
Proof.
  pose proof (keeps_ledger_trans UploadLedger) as T.
  unfold _download_file.
  repeat first
    [ apply keeps_ledger_call; reflexivity
    | apply keeps_ledger_refl
    | split; reflexivity
    | apply (along_bind _ T); [|intros ? ? _] ].
Qed.

Lemma download_pass_keeps_upload w :
  keeps_ledger UploadLedger w (world_of (_check_for_downloads w)).
Proof.
  apply (along_check_for_downloads _ (keeps_ledger_refl _) (keeps_ledger_trans _)).
  - intros w0. now apply keeps_ledger_call.
  - apply download_file_keeps_upload.
Qed.

Lemma other_ledger_kept l l' w :
  l' <> l -> keeps_ledger (ledger_of l') w (world_of (loop_body l w)).
Proof.
  intros Hne. destruct l, l'; try (now elim Hne); cbn [ledger_of loop_body].
  - apply upload_pass_keeps_download.
  - apply download_pass_keeps_upload.
Qed.

Lemma synced_kept ldg w w' : keeps_ledger ldg w w' -> synced ldg w -> synced ldg w'.
Proof. intros [Hh Hf] P. unfold synced. now rewrite Hh, Hf. Qed.

Lemma own_step_synced l w pc :
  (pc <> Died -> synced (ledger_of l) w) ->
  snd (thread_step l (w, pc)) <> Died ->
  synced (ledger_of l) (fst (thread_step l (w, pc))).
Proof.
  intros P. destruct pc as [| |[|k]| |]; cbn [thread_step].
  - destruct (running w); cbn [fst snd]; intros _; apply P; discriminate.
  - destruct (loop_body l w) as [[] w'|w'] eqn:E; cbn [fst snd].
    + intros _. eapply own_ledger_synced; [|exact E]. apply P. discriminate.
    + intros H. now elim H.
  - cbn [fst snd]. intros _. apply P. discriminate.
  - cbn [fst snd]. intros _. apply P. discriminate.
  - cbn [fst snd]. intros _. apply P. discriminate.
  - cbn [fst snd]. intros H. now elim H.
Qed.

Lemma other_step_synced l l' w pc :
  l' <> l -> synced (ledger_of l') w ->
  synced (ledger_of l') (fst (thread_step l (w, pc))).
Proof.
  intros Hne P. destruct pc as [| |[|k]| |]; cbn [thread_step];
    try exact P.
  - destruct (running w); exact P.
  - pose proof (other_ledger_kept l l' w Hne) as K.
    destruct (loop_body l w) as [[] w'|w']; cbn [fst world_of] in *;
      eapply synced_kept; eassumption.
Qed.

Lemma synced_turn l0 p :
  (forall l, thread_of l p <> Died -> synced (ledger_of l) (shared p)) ->
  forall l, thread_of l (move (Turn l0) p) <> Died ->
            synced (ledger_of l) (shared (move (Turn l0) p)).
Proof.
  intros J l. destruct l0, l;
    cbn [move shared input_thread output_thread thread_of].
  - apply own_step_synced. exact (J UploadLoop).
  - intros H. apply other_step_synced; [discriminate|]. exact (J DownloadLoop H).
  - intros H. apply other_step_synced; [discriminate|]. exact (J UploadLoop H).
  - apply own_step_synced. exact (J DownloadLoop).
Qed.

Lemma synced_move m p :
  (forall l, thread_of l p <> Died -> synced (ledger_of l) (shared p)) ->
  forall l, thread_of l (move m p) <> Died ->
            synced (ledger_of l) (shared (move m p)).
Proof.
  intros J. destruct m as [l0|a]; [now apply synced_turn|].
  destruct a as [| |n k|key|kw tape]; cbn [move act fst snd].
  - exact J.
  - intros l H. apply (J l) in H. destruct l; exact H.
  - intros l H. apply (J l) in H. destruct l; exact H.
  - intros l H. apply (J l) in H. destruct l; exact H.
  - destruct (init_spec kw (store (shared p)) tape) as [_ [_ [_ [_ [_ Hm]]]]].
    destruct (__init__ kw (boot (store (shared p)) tape)) as [[] w'|w'];
      cbn [fst snd shared thread_of input_thread output_thread].
    + intros l _. destruct Hm as [Hl _]. exact (Hl (ledger_of l)).
    + intros l H. destruct l; now elim H.
Qed.

(** X5: in a process that runs both loops, whenever the thread of a loop
    is alive and between two passes -- at its test, about to run a pass,
    asleep, or returned -- the history file of that loop holds exactly the
    list that its history holds in memory, whatever the other thread has
    done in the meantime, its death half-way through a write of its own
    history included.  This holds from any machine, under any interleaving
    of the turns of the two threads with signals, arrivals, publications
    and restarts. *)
Theorem history_files_hold_the_histories_between_passes
  (l : Loop) (st : Store) (ms : list Move) :
  thread_of l (run ms (halted st)) <> Died ->
  synced (ledger_of l) (shared (run ms (halted st))).
Proof.
  assert (G : forall ms p,
             (forall l, thread_of l p <> Died -> synced (ledger_of l) (shared p)) ->
             forall l, thread_of l (run ms p) <> Died ->
                       synced (ledger_of l) (shared (run ms p))).
  { clear ms. induction ms as [|m rest IH]; intros p J; cbn [run].
    - exact J.
    - apply IH. now apply synced_move. }
  apply G. intros l0 H. destruct l0; now elim H.
Qed.

Lemma history_files_hold_the_histories_between_passes_witness :
  synced UploadLedger
    (shared (run [Happen (Restart None [false; false; false; false; false;
                                         false; false; false; false; true]);
                  Happen (Arrive "x" Regular); Happen (Publish "k");
                  Turn DownloadLoop; Turn DownloadLoop;
                  Turn UploadLoop; Turn UploadLoop]
                 (halted fresh_install))).
Proof.
  apply (history_files_hold_the_histories_between_passes UploadLoop).
  vm_compute. discriminate.
Defined.


(** ** Starting on good and on bad history files *)

Lemma create_keeps_unparseable l l' w :
  ledger_file l (store w) = Unparseable ->
  ledger_file l (store (world_of (create_if_missing l' w))) = Unparseable.
Proof.
  intros H. unfold create_if_missing, bind, read.
  destruct (ledger_file l' (store w)) eqn:E; try exact H.
  assert (Hne : l <> l') by (intros ->; congruence).
  run_calls; cbn [world_of]; open_ops; destruct l, l';
    try (now elim Hne); exact H.
Qed.

Lemma init_keeps_unparseable kw st tape l :
  ledger_file l st = Unparseable ->
  ledger_file l (store (world_of (__init__ kw (boot st tape)))) = Unparseable.
Proof.
  intros H. rewrite init_unfold.
  pose proof (create_keeps_unparseable l UploadLedger (boot st tape) H) as H1.
  pose proof (create_if_missing_keeps UploadLedger (boot st tape)) as K1.
  destruct (create_if_missing UploadLedger (boot st tape)) as [[] w1|w1];
    cbn [world_of] in *; [|exact H1].
  pose proof (create_keeps_unparseable l DownloadLedger w1 H1) as H2.
  pose proof (create_if_missing_keeps DownloadLedger w1) as K2.
  pose proof (files_kept_trans _ _ _ K1 K2) as K.
  destruct (create_if_missing DownloadLedger w1) as [[] w2|w2];
    cbn [world_of] in *; [|exact H2].
  destruct K as [_ [_ [_ [_ [_ [F G]]]]]].
  destruct (init_tail kw w2 F G) as [Hs _]. cbv zeta in Hs. now rewrite Hs.
Qed.

Lemma init_raises_on_unparseable kw st tape l :
  ledger_file l st = Unparseable ->
  exists w', __init__ kw (boot st tape) = Raise w' /\
             ledger_file l (store w') = Unparseable.
Proof.
  intros H. pose proof (init_keeps_unparseable kw st tape l H) as Hu.
  destruct (init_spec kw st tape) as [_ [_ [_ [_ [_ Hm]]]]].
  destruct (__init__ kw (boot st tape)) as [[] w'|w']; cbn [world_of] in *.
  - destruct Hm as [Hl _]. rewrite (Hl l) in Hu. discriminate Hu.
  - now exists w'.
Qed.

Lemma dead_with_unparseable_act lp l a s :
  snd s = Died -> ledger_file l (store (fst s)) = Unparseable ->
  snd (act lp a s) = Died /\
  ledger_file l (store (fst (act lp a s))) = Unparseable.
Proof.
  destruct s as [w pc]. cbn [fst snd]. intros -> H.
  destruct a as [| |n k|key|kw tape]; cbn [act fst snd thread_step].
  - now split.
  - split; [reflexivity|]. now destruct l.
  - split; [reflexivity|]. now destruct l.
  - split; [reflexivity|]. now destruct l.
  - destruct (init_raises_on_unparseable kw (store w) tape l H) as [w' [E Hu]].
    rewrite E. now split.
Qed.

(** X6: a history file that does not parse is a fatal start-up error and
    stays one: [__init__] raises, whatever else happens to work, and
    leaves the file as it is; so from then on the client is dead under
    every schedule, however often it is started again. *)
Theorem unparseable_history_file_is_fatal (lp : Loop) (l : Ledger) :
  (forall kw st tape,
     ledger_file l st = Unparseable ->
     exists w', __init__ kw (boot st tape) = Raise w' /\
                ledger_file l (store w') = Unparseable) /\
  (forall sched s,
     snd s = Died -> ledger_file l (store (fst s)) = Unparseable ->
     snd (exec lp sched s) = Died /\
     ledger_file l (store (fst (exec lp sched s))) = Unparseable).
Proof.
  split.
  - intros kw st tape. apply init_raises_on_unparseable.
  - induction sched as [|a rest IH]; intros s Hd Hu; cbn [exec].
    + now split.
    + destruct (dead_with_unparseable_act lp l a s Hd Hu) as [Hd1 Hu1].
      now apply IH.
Qed.

Lemma unparseable_history_file_is_fatal_witness :
  snd (exec UploadLoop [Restart None []; Arrive "x" Regular; Step; Restart (Some 5) []]
         (off (mkStore [] [] [] [] [] [] Unparseable Missing))) = Died.
Proof.
  exact (proj1 (proj2 (unparseable_history_file_is_fatal UploadLoop UploadLedger)
                  _ (off (mkStore [] [] [] [] [] [] Unparseable Missing))
                  eq_refl eq_refl)).
Defined.


(** ** A write of the history that raises *)

Lemma upload_dump_failure file w h :
  raises_at (_upload_file file) w (JsonDump UploadLedger h) ->
  exists w',
    _upload_file file w = Raise w' /\
    upload_fp (store w') = Unparseable /\
    In (target file) (upload_bucket (store w')) /\
    archive_dir (store w') = archive_dir (store w) /\
    In (target file) (names (input_dir (store w'))).
Proof.
  unfold raises_at, target.
  run_method _upload_file.
  destruct (contains space file) eqn:Hsp; cbn beta iota.
  - run_calls; intros H.
    all: use_raise H.
    all: forget_faults; open_ops.
    all: eexists; split; [reflexivity|].
    all: cbn [upload_fp archive_dir input_dir upload_bucket store log].
    all: split; [reflexivity|]; split; [|split; [reflexivity|]].
    all: try (apply dir_lookup_names; congruence).
    all: destruct (mem (replace space underscore file) (upload_bucket (store w))) eqn:E;
         [now apply mem_In|apply in_or_app; right; now left].
  - run_calls; intros H.
    all: use_raise H.
    all: forget_faults; open_ops.
    all: eexists; split; [reflexivity|].
    all: cbn [upload_fp archive_dir input_dir upload_bucket store log].
    all: split; [reflexivity|]; split; [|split; [reflexivity|]].
    all: try (apply dir_lookup_names; congruence).
    all: destruct (mem file (upload_bucket (store w))) eqn:E;
         [now apply mem_In|apply in_or_app; right; now left].
Qed.

Lemma download_dump_failure file w h :
  raises_at (_download_file file) w (JsonDump DownloadLedger h) ->
  exists w',
    _download_file file w = Raise w' /\
    download_fp (store w') = Unparseable /\
    In file (output_dir (store w')).
Proof.
  unfold raises_at.
  run_method _download_file. run_calls; intros H.
  all: use_raise H.
  forget_faults. open_ops. eexists. split; [reflexivity|].
  cbn [download_fp output_dir store log]. split; [reflexivity|].
  destruct (mem file (output_dir (store w))) eqn:E;
    [now apply mem_In|apply in_or_app; right; now left].
Qed.

(** X7: the history file is truncated before it is rewritten.  When the
    write of the history raises in an upload, the object is in the upload
    bucket and the file still in the input folder, but the upload history
    file no longer parses; when it raises in a download, the object is in
    the output folder and the download history file no longer parses.  In
    both cases every later start of the client raises. *)
Theorem failed_history_write_loses_the_history_file :
  (forall file w h,
     raises_at (_upload_file file) w (JsonDump UploadLedger h) ->
     exists w',
       _upload_file file w = Raise w' /\
       upload_fp (store w') = Unparseable /\
       In (target file) (upload_bucket (store w')) /\
       archive_dir (store w') = archive_dir (store w) /\
       In (target file) (names (input_dir (store w'))) /\
       forall kw tape, returned (__init__ kw (boot (store w') tape)) = false) /\
  (forall file w h,
     raises_at (_download_file file) w (JsonDump DownloadLedger h) ->
     exists w',
       _download_file file w = Raise w' /\
       download_fp (store w') = Unparseable /\
       In file (output_dir (store w')) /\
       forall kw tape, returned (__init__ kw (boot (store w') tape)) = false).
Proof.
  split.
  - intros file w h H.
    destruct (upload_dump_failure file w h H) as [w' [H1 [H2 [H3 [H4 H5]]]]].
    exists w'. repeat (split; [assumption|]). intros kw tape.
    destruct (init_raises_on_unparseable kw (store w') tape UploadLedger H2)
      as [w2 [E _]]. now rewrite E.
  - intros file w h H.
    destruct (download_dump_failure file w h H) as [w' [H1 [H2 H3]]].
    exists w'. repeat (split; [assumption|]). intros kw tape.
    destruct (init_raises_on_unparseable kw (store w') tape DownloadLedger H2)
      as [w2 [E _]]. now rewrite E.
Qed.

Lemma failed_history_write_loses_the_history_file_witness :
  exists w',
    _download_file "k" (mkWorld one_key [] [] true 10 [false; false; false; true] [])
    = Raise w' /\
    download_fp (store w') = Unparseable.
Proof.
  assert (H : raises_at (_download_file "k")
                (mkWorld one_key [] [] true 10 [false; false; false; true] [])
                (JsonDump DownloadLedger ["k"])).
  { eexists. eexists. split; [vm_compute; reflexivity|].
    split; [do 3 right; left; reflexivity|]. split; reflexivity. }
  destruct (proj2 failed_history_write_loses_the_history_file "k" _ _ H)
    as [w' [H1 [H2 _]]].
  exists w'. split; assumption.
Defined.


(** ** A start that returns *)

Lemma init_total kw st :
  (forall l, ledger_file l st <> Unparseable) ->
  returned (__init__ kw (boot st [])) = true.
Proof.
  intros H.
  pose proof (H UploadLedger) as Hu. pose proof (H DownloadLedger) as Hd.
  cbn [ledger_file] in Hu, Hd.
  unfold __init__, create_if_missing, json_load, bind, read, ret, call,
    set_upload_history, set_download_history, set_sleep_interval, set_running,
    next_fault.
  cbn [boot store oracle ledger_file].
  destruct (upload_fp st) eqn:Eu; [|now elim Hu|];
    destruct (download_fp st) eqn:Ed; try (now elim Hd).
  all: unfold log; repeat (progress (cbn; rewrite ?Eu, ?Ed)); reflexivity.
Qed.

(** X8: on a machine whose history files are absent or hold a list, a
    start in which no call raises returns: a file that holds a list is
    left as it is and its list becomes the history in memory, an absent
    file is created holding the empty list and the history starts empty,
    the flag is set, and the interval between passes is the keyword
    argument when given and ten seconds otherwise; the folders and the
    download bucket are not touched. *)
Theorem start_loads_the_histories (kw : option nat) (st : Store) :
  (forall l, ledger_file l st <> Unparseable) ->
  exists w0,
    __init__ kw (boot st []) = Ret tt w0 /\
    in_sync w0 /\
    (forall l h, ledger_file l st = Content h -> history l w0 = h) /\
    (forall l, ledger_file l st = Missing -> history l w0 = []) /\
    running w0 = true /\
    sleep_interval w0 = match kw with Some n => n | None => 10 end /\
    input_dir (store w0) = input_dir st /\
    archive_dir (store w0) = archive_dir st /\
    download_bucket (store w0) = download_bucket st.
Proof.
  intros H. pose proof (init_total kw st H) as Ht.
  destruct (init_spec kw st []) as [A [B [C [D [E Hm]]]]].
  destruct (__init__ kw (boot st [])) as [[] w0|w0] eqn:Hi;
    [|discriminate Ht].
  cbn [world_of] in *. destruct Hm as [Hl [Hr Hs]].
  exists w0. split; [reflexivity|]. split; [exact Hl|].
  split; [|split; [|repeat split; assumption]].
  - intros l h Hf. pose proof (A l h Hf) as E1. rewrite (Hl l) in E1.
    now injection E1.
  - intros l Hf. destruct (B l _ (Hl l)) as [E1|E1]; [congruence|exact E1].
Qed.

Lemma start_loads_the_histories_witness :
  exists w0,
    __init__ None (boot two_keys_one_recorded []) = Ret tt w0 /\
    history DownloadLedger w0 = ["a.txt"] /\
    sleep_interval w0 = 10.
Proof.
  assert (H : forall l, ledger_file l two_keys_one_recorded <> Unparseable)
    by (intros []; discriminate).
  destruct (start_loads_the_histories None two_keys_one_recorded H)
    as [w0 [Hi [_ [Hc [_ [_ [Hs _]]]]]]].
  exists w0. split; [exact Hi|]. split; [|exact Hs].
  apply Hc. reflexivity.
Defined.

(** ** The two loops work on disjoint state *)

Lemma download_side_kept_refl w : download_side_kept w w.
Proof. unfold download_side_kept. auto. Qed.

Lemma download_side_kept_trans w1 w2 w3 :
  download_side_kept w1 w2 -> download_side_kept w2 w3 ->
  download_side_kept w1 w3.
Proof.
  intros [A1 [B1 [C1 D1]]] [A2 [B2 [C2 D2]]]. unfold download_side_kept.
  repeat split; congruence.
Qed.

Lemma upload_side_kept_refl w : upload_side_kept w w.
Proof. unfold upload_side_kept. auto. Qed.

Lemma upload_side_kept_trans w1 w2 w3 :
  upload_side_kept w1 w2 -> upload_side_kept w2 w3 -> upload_side_kept w1 w3.
Proof.
  intros [A1 [B1 [C1 [D1 E1]]]] [A2 [B2 [C2 [D2 E2]]]]. unfold upload_side_kept.
  repeat split; congruence.
Qed.

Lemma upload_op_keeps_download_side op s s' :
  upload_op op = true -> apply_op op s = Some s' ->
  download_fp s' = download_fp s /\ output_dir s' = output_dir s /\
  download_bucket s' = download_bucket s.
Proof.
  intros Hu H. destruct op; try discriminate Hu; cbn [apply_op] in H.
  all: repeat match type of H with
       | match ?x with _ => _ end = _ => destruct x eqn:?; try discriminate H
       end.
  all: try (match goal with l : Ledger |- _ => destruct l; try discriminate Hu end).
  all: injection H as <-; repeat split.
Qed.

Lemma download_op_keeps_upload_side op s s' :
  download_op op = true -> apply_op op s = Some s' ->
  upload_fp s' = upload_fp s /\ input_dir s' = input_dir s /\
  archive_dir s' = archive_dir s /\ upload_bucket s' = upload_bucket s.
Proof.
  intros Hu H. destruct op; try discriminate Hu; cbn [apply_op] in H.
  all: repeat match type of H with
       | (if ?x then _ else _) = _ => destruct x eqn:?; try discriminate H
       end.
  all: try (match goal with l : Ledger |- _ => destruct l; try discriminate Hu end).
  all: injection H as <-; repeat split.
Qed.

Lemma download_side_kept_call op w :
  upload_op op = true -> download_side_kept w (world_of (call op w)).
Proof.
  intros Hu. destruct (call_cases op w) as [[s [_ [Hop ->]]]|[_ ->]];
    cbn [world_of]; unfold download_side_kept; cbn [store log download_history].
  - destruct (upload_op_keeps_download_side op _ _ Hu Hop) as [A [B C]]. auto.
  - auto.
Qed.

Lemma upload_side_kept_call op w :
  download_op op = true -> upload_side_kept w (world_of (call op w)).
Proof.
  intros Hu. destruct (call_cases op w) as [[s [_ [Hop ->]]]|[_ ->]];
    cbn [world_of]; unfold upload_side_kept; cbn [store log upload_history].
  - destruct (download_op_keeps_upload_side op _ _ Hu Hop) as [A [B [C D]]]. auto.
  - auto 6.
Qed.

(** X10: the two loops work on disjoint state.  A pass of the upload loop,
    however it ends, leaves the download history, its file, the output
    folder and the download bucket as they were; a pass of the download
    loop, however it ends, leaves the upload history, its file, the input
    folder, the archive and the upload bucket as they were; and neither
    changes the flag or the interval. *)
Theorem loops_work_on_disjoint_state (w : World) :
  download_side_kept w (world_of (_manage_input_body w)) /\
  upload_side_kept w (world_of (_check_for_downloads w)) /\
  (forall l, running (world_of (loop_body l w)) = running w /\
             sleep_interval (world_of (loop_body l w)) = sleep_interval w).
Proof.
  split; [|split].
  - apply (along_manage_input_body _ download_side_kept_refl download_side_kept_trans).
    + intros w0. now apply download_side_kept_call.
    + intros file w0. unfold _upload_file.
      repeat first
        [ apply download_side_kept_call; reflexivity
        | apply download_side_kept_refl
        | solve [unfold download_side_kept; cbn; auto]
        | apply (along_bind _ download_side_kept_trans); [|intros ? ? _]
        | match goal with |- context [if ?c then _ else _] => destruct c end ].
  - apply (along_check_for_downloads _ upload_side_kept_refl upload_side_kept_trans).
    + intros w0. now apply upload_side_kept_call.
    + intros file w0. unfold _download_file.
      repeat first
        [ apply upload_side_kept_call; reflexivity
        | apply upload_side_kept_refl
        | solve [unfold upload_side_kept; cbn; auto 6]
        | apply (along_bind _ upload_side_kept_trans); [|intros ? ? _] ].
  - intros l. pose proof (grows_loop_body l w) as [_ [Hr Hs]]. now split.
Qed.

(** ** Two entries with one name without spaces *)

Lemma upload_files_absent rest : forall n w,
  In n rest -> dir_lookup n (input_dir (store w)) = None ->
  returned (_upload_files rest w) = false.
Proof.
  induction rest as [|f r IH]; intros n w Hin Hk; [now elim Hin|].
  cbn [_upload_files]. unfold bind.
  destruct (_upload_file f w) as [[] w1|w1] eqn:Hf; [|reflexivity].
  destruct (upload_file_ret_store f w w1 Hf) as [k [Hfk [Hs _]]].
  destruct Hin as [->|Hin]; [rewrite Hk in Hfk; discriminate Hfk|].
  apply (IH n w1 Hin).
  destruct (dir_lookup n (input_dir (store w1))) eqn:E; [|reflexivity].
  assert (HIn : In n (names (input_dir (store w1)))).
  { apply dir_lookup_names. rewrite E. discriminate. }
  rewrite Hs in HIn. apply uploaded_input_lacks in HIn.
  destruct HIn as [HIn _]. apply dir_lookup_names in HIn. now elim HIn.
Qed.

Lemma upload_files_clash l1 : forall file l2 w,
  In (target file) l2 ->
  returned (_upload_files (l1 ++ file :: l2) w) = false.
Proof.
  induction l1 as [|g r IH]; intros file l2 w Hin; cbn [app _upload_files];
    unfold bind.
  - destruct (_upload_file file w) as [[] w1|w1] eqn:Hf; [|reflexivity].
    apply (upload_files_absent l2 (target file) w1 Hin).
    destruct (upload_file_ret_store file w w1 Hf) as [k [_ [Hs _]]].
    rewrite Hs. unfold uploaded. cbn [input_dir]. apply dir_lookup_remove_same.
  - destruct (_upload_file g w) as [[] w1|w1]; [|reflexivity].
    now apply IH.
Qed.

(** X11: when the scan of the input folder lists an entry and, after it, an
    entry whose name is the first one's name without spaces (["a b"] and
    then ["a_b"]), the pass of the upload loop raises, whatever else
    happens, and the thread of the loop ends.  The first upload, if it
    returns, has moved the entry away under the second name, and nothing
    brings that name back before its turn comes. *)
Theorem name_clash_ends_the_upload_loop
    (w : World) (file : string) (l1 l2 : list string) :
  names (input_dir (store w)) = l1 ++ file :: l2 ->
  In (target file) l2 ->
  returned (_manage_input_body w) = false /\
  snd (thread_step UploadLoop (w, InBody)) = Died.
Proof.
  intros Hn Hin.
  assert (H : returned (_manage_input_body w) = false).
  { unfold _manage_input_body, _check_input_files, bind, read.
    destruct (call_cases Glob w) as [[s [_ [Hop ->]]]|[_ ->]]; [|reflexivity].
    cbn [apply_op] in Hop. injection Hop as <-. cbn [store log]. rewrite Hn.
    assert (Hc := upload_files_clash l1 file l2 (log Glob true (store w) w) Hin).
    destruct (l1 ++ file :: l2) eqn:E; [now destruct l1|exact Hc]. }
  split; [exact H|]. cbn [thread_step loop_body].
  destruct (_manage_input_body w); [discriminate H|reflexivity].
Qed.

Lemma name_clash_ends_the_upload_loop_witness :
  snd (thread_step UploadLoop (idle clashing_names [], InBody)) = Died.
Proof.
  exact (proj2 (name_clash_ends_the_upload_loop (idle clashing_names [])
                  "a b" [] ["a_b"] eq_refl (or_introl eq_refl))).
Defined.

(** ** How a loop returns *)

Lemma alive_act l a s :
  a <> Signal ->
  snd s = Died \/ (running (fst s) = true /\ snd s <> Returned) ->
  snd (act l a s) = Died \/
  (running (fst (act l a s)) = true /\ snd (act l a s) <> Returned).
Proof.
  destruct s as [w pc]. cbn [fst snd]. intros Ha J.
  destruct a as [| |n k|key|kw tape]; [| now elim Ha | | |]; cbn [act fst snd].
  - destruct J as [->|[Hr Hpc]]; [now left|].
    destruct pc as [| |[|k]| |]; cbn [thread_step].
    + rewrite Hr. right. cbn. split; [exact Hr|discriminate].
    + pose proof (grows_loop_body l w) as [_ [Gr _]].
      destruct (loop_body l w) as [[] w'|w']; cbn [world_of fst snd] in *;
        [right; split; [congruence|discriminate]|now left].
    + right. cbn. split; [exact Hr|discriminate].
    + right. cbn. split; [exact Hr|discriminate].
    + now elim Hpc.
    + now left.
  - exact J.
  - exact J.
  - destruct (init_spec kw (store w) tape) as [_ [_ [_ [_ [_ Hm]]]]].
    destruct (__init__ kw (boot (store w) tape)) as [[] w'|w'];
      cbn [fst snd]; [|now left].
    destruct Hm as [_ [Hr _]]. right. split; [exact Hr|discriminate].
Qed.

Lemma alive_exec l sched : forall s,
  snd s = Died \/ (running (fst s) = true /\ snd s <> Returned) ->
  snd (exec l sched s) = Returned -> In Signal sched.
Proof.
  induction sched as [|a rest IH]; intros s J; cbn [exec].
  - intros E. destruct J as [E'|[_ E']]; [rewrite E' in E; discriminate E|].
    now elim E'.
  - intros E. destruct a as [| |n k|key|kw tape]; [|now left| | |]; right;
      (eapply IH; [|exact E]; apply alive_act; [discriminate|exact J]).
Qed.

Lemma returned_cleared_act l a s :
  (snd s = Returned -> running (fst s) = false) ->
  snd (act l a s) = Returned -> running (fst (act l a s)) = false.
Proof.
  destruct s as [w pc]. cbn [fst snd]. intros I.
  destruct a as [| |n k|key|kw tape]; cbn [act fst snd].
  - destruct pc as [| |[|k]| |]; cbn [thread_step]; try discriminate.
    + destruct (running w) eqn:E; cbn [fst snd]; [discriminate|intros _; exact E].
    + destruct (loop_body l w) as [[] w'|w']; discriminate.
    + exact I.
  - reflexivity.
  - exact I.
  - exact I.
  - destruct (__init__ kw (boot (store w) tape)) as [[] w'|w']; discriminate.
Qed.

Lemma returned_cleared_exec l sched : forall s,
  (snd s = Returned -> running (fst s) = false) ->
  snd (exec l sched s) = Returned -> running (fst (exec l sched s)) = false.
Proof.
  induction sched as [|a rest IH]; intros s I; cbn [exec]; [exact I|].
  apply IH. now apply returned_cleared_act.
Qed.

(** X12: a loop returns only on a cleared flag, and only the signal clears
    it.  Whatever happens on a machine from the time no client runs on it,
    if the thread of a loop has returned then [running] is false and the
    signal handler has run; a raised call ends the thread as dead, not as
    returned, and nothing in the client itself clears the flag. *)
Theorem a_loop_returns_only_after_the_signal
    (l : Loop) (st : Store) (sched : list Action) :
  snd (exec l sched (off st)) = Returned ->
  running (fst (exec l sched (off st))) = false /\ In Signal sched.
Proof.
  intros H. split.
  - apply returned_cleared_exec; [|exact H]. cbn. discriminate.
  - apply (alive_exec l sched (off st)); [now left|exact H].
Qed.

Lemma a_loop_returns_only_after_the_signal_witness :
  running (fst (exec DownloadLoop [Restart None []; Signal; Step]
                  (off fresh_install))) = false /\
  In Signal [Restart None []; Signal; Step].
Proof.
  apply (a_loop_returns_only_after_the_signal DownloadLoop fresh_install
           [Restart None []; Signal; Step]).
  vm_compute. reflexivity.
Defined.

(** ** Passes on which no call raises *)







Lemma plain_lands key folders : plain key folders = true -> lands key folders = true.
Proof. unfold plain, lands. now destruct (place key). Qed.

Lemma download_file_total file w :
  oracle w = [] -> In file (download_bucket (store w)) ->
  plain file (output_folders (store w)) = true ->
  exists w', _download_file file w = Ret tt w' /\ oracle w' = [].
Proof.
  intros Ho Hin Hp. apply mem_In in Hin. apply plain_lands in Hp.
  destruct w as [st uh dh r si o t].
  cbn [oracle store download_bucket output_folders] in Ho, Hin, Hp.
  subst o. run_method _download_file. unfold call, next_fault.
  cbn [apply_op oracle log store tl]. rewrite Hin, Hp.
  cbn [apply_op oracle log store tl]. eexists. split; reflexivity.
Qed.

Lemma downloads_for_total files : forall w,
  oracle w = [] ->
  (forall f, In f files ->
     In f (download_bucket (store w)) /\
     plain f (output_folders (store w)) = true) ->
  exists w', _check_for_downloads_for files w = Ret tt w' /\ oracle w' = [].
Proof.
  induction files as [|f r IH]; intros w Ho Hin; cbn [_check_for_downloads_for].
  - exists w. now split.
  - unfold bind at 1. unfold read. cbn beta iota.
    destruct (mem f (download_history w)).
    + unfold bind, ret. apply IH; [exact Ho|]. intros g Hg. apply Hin. now right.
    + unfold bind.
      destruct (Hin f (or_introl eq_refl)) as [Hb Hp].
      destruct (download_file_total f w Ho Hb Hp) as [w1 [Hr Ho1]].
      rewrite Hr.
      assert (Hst : download_bucket (store w1) = download_bucket (store w) /\
                    output_folders (store w1) = output_folders (store w)).
      { revert Hr. run_method _download_file. run_calls; try discriminate.
        intros E. injection E as <-. forget_faults. open_ops. now split. }
      destruct Hst as [E1 E2].
      apply IH; [exact Ho1|]. intros g Hg. rewrite E1, E2. apply Hin. now right.
Qed.

Lemma first_page_In k b : In k (first_page b) -> In k b.
Proof.
  unfold first_page. intros H.
  rewrite <- (firstn_skipn max_keys b). apply in_or_app. now left.
Qed.

(** X14: when no call raises from outside and every listed key names a
    file directly in the output folder, where no folder of that name
    stands, the pass of the download loop returns; afterwards every listed
    key is in the download history, every listed key that was not in it
    before has its file in the output folder, and the thread goes to sleep
    for [sleep_interval] seconds. *)
Theorem download_pass_returns_when_nothing_raises (w : World) :
  oracle w = [] ->
  (forall k, In k (first_page (download_bucket (store w))) ->
     plain k (output_folders (store w)) = true) ->
  exists w',
    _check_for_downloads w = Ret tt w' /\
    oracle w' = [] /\
    (forall k, In k (first_page (download_bucket (store w))) ->
       In k (download_history w') /\
       (In k (download_history w) \/ In k (output_dir (store w')))) /\
    thread_step DownloadLoop (w, InBody) = (w', Sleeping (sleep_interval w)).
Proof.
  intros Ho Hp.
  assert (Hl : call S3List w = Ret tt (log S3List true (store w) w)).
  { unfold call, next_fault. now rewrite Ho. }
  destruct (downloads_for_total (first_page (download_bucket (store w)))
              (log S3List true (store w) w)) as [w' [Hr Ho']].
  { cbn [oracle log]. now rewrite Ho. }
  { intros f Hf. cbn [store log]. split; [now apply first_page_In|now apply Hp]. }
  assert (Hb : _check_for_downloads w = Ret tt w').
  { rewrite check_for_downloads_unfold, Hl. exact Hr. }
  exists w'. split; [exact Hb|]. split; [exact Ho'|]. split.
  - destruct (downloads_for_ret _ _ _ Hr)
      as [evs [_ [Hd [Hh [_ [_ [_ [Hout _]]]]]]]].
    cbn [store log download_history] in *.
    intros k Hk. destruct (mem k (download_history w)) eqn:Hm.
    + apply mem_In in Hm. split; [|now left].
      rewrite Hh. apply in_or_app. now left.
    + apply mem_not_In in Hm.
      assert (Hf : In k (downloads evs)).
      { rewrite Hd. apply fresh_keys_In. now split. }
      split; [rewrite Hh; apply in_or_app; now right|].
      right. now apply Hout.
  - cbn [thread_step loop_body]. rewrite Hb.
    pose proof (grows_loop_body DownloadLoop w) as [_ [_ Gs]].
    cbn [loop_body] in Gs. rewrite Hb in Gs. cbn [world_of] in Gs. now rewrite Gs.
Qed.

Lemma download_pass_returns_when_nothing_raises_witness :
  exists w',
    _check_for_downloads (idle two_keys_one_recorded []) = Ret tt w' /\
    oracle w' = [].
Proof.
  assert (H : forall k,
            In k (first_page (download_bucket
                                (store (idle two_keys_one_recorded [])))) ->
            plain k (output_folders (store (idle two_keys_one_recorded []))) = true)
    by (intros k [<-|[<-|[]]]; vm_compute; reflexivity).
  destruct (download_pass_returns_when_nothing_raises
              (idle two_keys_one_recorded []) eq_refl H) as [w' [H1 [H2 _]]].
  exists w'. split; assumption.
Defined.
